(** * Verification of the system health monitor and the uptime checker

    Shallow embedding of
      - [exercise1/system_health_monitor.py] (module [SysMon]) and
      - [exercise2/app_uptime_monitor.py]    (module [AppUptime]).
    The logger object and the option parsing of the first program are in
    [SysMonSetup], the configuration file, [monitor] and [main] of the
    second in [Uptime], the [str] methods both use in [Str].

    The Python code talks to the operating system through [psutil], [time]
    and [requests]; what those calls answer is an input of the model (a
    [World] per monitoring cycle).  Each call either returns a value or
    raises, so a call's answer is an [outcome].  Log lines are collected in
    the order in which the logger receives them.

    Percentages are Python floats in the source.  They are modelled as
    rationals: every finite float is a rational number and [>] on finite
    floats is the order of the rationals.  NaN and the infinities are not
    modelled. *)

From Stdlib Require Import ZArith QArith List String Bool Lia.
Import ListNotations.

Set Implicit Arguments.

(** ** The part of the Python runtime the two programs use *)

Module Py.

(** Exceptions the programs name in an [except] clause, two that stand for
    any other exception, and the signal of Ctrl-C.  [KeyboardInterrupt] is
    the only one that is not a subclass of [Exception]. *)
Inductive exn : Type :=
| NoSuchProcess
| ZombieProcess
| AccessDenied
| KeyError (key : string)
| TypeError
| RequestException
| OtherException (what : string)
| KeyboardInterrupt.

(** [except Exception] *)
Definition is_Exception (e : exn) : bool :=
  match e with
  | KeyboardInterrupt => false
  | _ => true
  end.

(** [except KeyboardInterrupt] *)
Definition is_KeyboardInterrupt (e : exn) : bool :=
  match e with
  | KeyboardInterrupt => true
  | _ => false
  end.

(** [except (psutil.NoSuchProcess, psutil.ZombieProcess)] *)
Definition is_NoSuchProcess_or_Zombie (e : exn) : bool :=
  match e with
  | NoSuchProcess | ZombieProcess => true
  | _ => false
  end.

(** [except (psutil.NoSuchProcess, psutil.AccessDenied, psutil.ZombieProcess)] *)
Definition is_process_gone (e : exn) : bool :=
  match e with
  | NoSuchProcess | ZombieProcess | AccessDenied => true
  | _ => false
  end.

(** [except requests.RequestException] *)
Definition is_RequestException (e : exn) : bool :=
  match e with
  | RequestException => true
  | _ => false
  end.

(** What a call does: it returns or it raises. *)
Inductive outcome (A : Type) : Type :=
| Returns (a : A)
| Raises (e : exn).
Arguments Returns {A} a.
Arguments Raises {A} e.

(** *** Values *)

Inductive value : Type :=
| VInt (z : Z)
| VStr (s : string)
| VFloat (q : Q).

(** *** Logging *)

Inductive level : Type := DEBUG | INFO | WARNING | ERROR.

(** [logging.DEBUG = 10], [INFO = 20], [WARNING = 30], [ERROR = 40] *)
Definition levelno (l : level) : Z :=
  match l with
  | DEBUG => 10
  | INFO => 20
  | WARNING => 30
  | ERROR => 40
  end%Z.

(** The f-strings of the two programs, one constructor per log call, with
    the values the f-string interpolates. *)
Inductive message : Type :=
| MsgCpuReadFailed (e : exn)
| MsgHighCpu (cpu_percent threshold : Q)
| MsgCpu (cpu_percent : Q)
| MsgMemReadFailed (e : exn)
| MsgHighMem (mem_percent threshold : Q)
| MsgMem (mem_percent : Q)
| MsgHighDisk (path : string) (pct threshold : Q)
| MsgDisk (path : string) (pct : Q)
| MsgDiskError (path : string) (e : exn)
| MsgProcCountFailed (e : exn)
| MsgHighProcCount (process_count threshold : Z)
| MsgTotalProcs (process_count : Z)
| MsgProcCheckError (pid : Z) (e : exn)
| MsgHighCpuProcsHeader
| MsgHighCpuProc (pid name cpu mem : value)
| MsgNoHighCpuProcs
| MsgStarting
| MsgNewCycle
| MsgAlertsRaised
| MsgAllOk
| MsgCycleCompleted
| MsgStopped
| MsgUnhandled (e : exn).

(** A line handed to the handlers.  [exc_info] is set by
    [logger.exception], which logs at ERROR level with the traceback. *)
Record LogRecord : Type := mkRecord {
  levelname : level;
  msg : message;
  exc_info : bool
}.

Record Logger : Type := mkLogger {
  logger_level : level
}.

(** *** Computations that log and may raise *)

Definition M (A : Type) : Type := (outcome A * list LogRecord)%type.

Definition ret {A} (a : A) : M A := (Returns a, []).

Definition raise {A} (e : exn) : M A := (Raises e, []).

Definition bind {A B} (m : M A) (k : A -> M B) : M B :=
  match m with
  | (Returns a, l1) => let (r, l2) := k a in (r, l1 ++ l2)
  | (Raises e, l1) => (Raises e, l1)
  end.

(** An answer of the outside world, used as a computation. *)
Definition call {A} (o : outcome A) : M A := (o, []).

(** [try: body / except C1 as e: h1 e / except C2 as e: h2 e / ...]: the
    first clause whose class matches handles the exception; an exception
    no clause names propagates. *)
Definition clause (A : Type) : Type := ((exn -> bool) * (exn -> M A))%type.

Fixpoint find_clause {A} (clauses : list (clause A)) (e : exn)
    : option (exn -> M A) :=
  match clauses with
  | [] => None
  | (catches, handler) :: rest =>
      if catches e then Some handler else find_clause rest e
  end.

Definition try_except {A} (body : M A) (clauses : list (clause A)) : M A :=
  match body with
  | (Returns a, l) => (Returns a, l)
  | (Raises e, l) =>
      match find_clause clauses e with
      | Some handler => let (r, l') := handler e in (r, l ++ l')
      | None => (Raises e, l)
      end
  end.

(** [Logger.log]: a record below the logger's level is dropped. *)
Definition emit (logger : Logger) (lvl : level) (info : bool)
    (m : message) : list LogRecord :=
  if (levelno (logger_level logger) <=? levelno lvl)%Z
  then [mkRecord lvl m info]
  else [].

Definition log_at (logger : Logger) (lvl : level) (info : bool)
    (m : message) : M unit :=
  (Returns tt, emit logger lvl info m).

Definition debug (logger : Logger) := log_at logger DEBUG false.
Definition info (logger : Logger) := log_at logger INFO false.
Definition warning (logger : Logger) := log_at logger WARNING false.
Definition error (logger : Logger) := log_at logger ERROR false.
Definition exception (logger : Logger) := log_at logger ERROR true.

Definition result {A} (m : M A) : outcome A := fst m.
Definition logged {A} (m : M A) : list LogRecord := snd m.

(** *** Dicts and [sorted] *)

(** A dict with string keys, in insertion order. *)
Definition dict : Type := list (string * value).

(** [d[k]] *)
Fixpoint getitem (d : dict) (k : string) : outcome value :=
  match d with
  | [] => Raises (KeyError k)
  | (k', v) :: d' => if String.eqb k' k then Returns v else getitem d' k
  end.

(** Truth value of a list: [if l:] *)
Definition truthy {A} (l : list A) : bool :=
  match l with
  | [] => false
  | _ :: _ => true
  end.

(** The keys [sorted] compares are numbers here: the program sorts by a
    percentage only. *)
Definition as_number (v : value) : outcome Q :=
  match v with
  | VInt z => Returns (inject_Z z)
  | VFloat q => Returns q
  | VStr _ => Raises TypeError
  end.

(** [sorted] first calls [key] on every element, from left to right; the
    first call that raises ends the sort. *)
Fixpoint decorate {A} (key : A -> outcome value) (l : list A)
    : outcome (list (Q * A)) :=
  match l with
  | [] => Returns []
  | x :: l' =>
      match key x with
      | Raises e => Raises e
      | Returns v =>
          match as_number v with
          | Raises e => Raises e
          | Returns k =>
              match decorate key l' with
              | Raises e => Raises e
              | Returns d => Returns ((k, x) :: d)
              end
          end
      end
  end.

(** [x] comes from the left of everything in [d]; with [reverse=True] it
    stays in front of the elements whose key is not larger. *)
Fixpoint insert_desc {A} (x : Q * A) (d : list (Q * A)) : list (Q * A) :=
  match d with
  | [] => [x]
  | y :: d' =>
      if Qle_bool (fst y) (fst x) then x :: y :: d'
      else y :: insert_desc x d'
  end.

Definition sort_desc {A} (d : list (Q * A)) : list (Q * A) :=
  fold_right insert_desc [] d.

(** [sorted(l, key=key, reverse=True)], a stable sort *)
Definition sorted_reverse {A} (key : A -> outcome value) (l : list A)
    : outcome (list A) :=
  match decorate key l with
  | Raises e => Raises e
  | Returns d => Returns (map snd (sort_desc d))
  end.

Declare Scope py_scope.
Delimit Scope py_scope with py.
Notation "x <- m ;; k" := (bind m (fun x => k))
  (at level 100, m at next level, right associativity) : py_scope.
Notation "m ;; k" := (bind m (fun _ => k))
  (at level 100, right associativity) : py_scope.

End Py.

(** ** exercise1/system_health_monitor.py *)

Module SysMon.
Import Py.
Local Open Scope py_scope.

(** [a > b] on percentages *)
Definition Qgtb (a b : Q) : bool := negb (Qle_bool a b).

(** The parsed command line.  [disk_paths] is the list [main] builds from
    the comma-separated option. *)
Record Args : Type := mkArgs {
  interval : Z;
  sample_interval : Q;
  cpu_threshold : Q;
  memory_threshold : Q;
  disk_threshold : Q;
  process_cpu_threshold : Q;
  process_count_threshold : Z;
  disk_paths : list string
}.

(** What [psutil.process_iter(attrs=["pid", "name"])] yields: [proc.info]
    and the answer of the first [proc.cpu_percent(None)]. *)
Record Proc : Type := mkProc {
  info_pid : Z;
  info_name : option string;
  cpu_percent_first : outcome Q
}.

(** A [psutil.Process(pid)] object of the second pass. *)
Record Process : Type := mkProcess {
  cpu_percent : outcome (option Q);
  memory_percent : outcome Q
}.

(** The answers of [psutil] and [time] during one cycle.  A disk path
    gets one answer per cycle; a pid gets one [psutil.Process] per cycle. *)
Record World : Type := mkWorld {
  psutil_cpu_percent : outcome Q;
  psutil_virtual_memory_percent : outcome Q;
  psutil_disk_usage_percent : string -> outcome Q;
  psutil_pids : outcome (list Z);
  psutil_process_iter : list Proc;
  time_sleep_sample : outcome unit;
  psutil_Process : Z -> outcome Process;
  time_sleep_interval : outcome unit
}.

(** The same world with another answer of [psutil.pids()], and with
    another process table. *)
Definition with_pids (w : World) (pids : outcome (list Z)) : World :=
  mkWorld (psutil_cpu_percent w) (psutil_virtual_memory_percent w)
    (psutil_disk_usage_percent w) pids (psutil_process_iter w)
    (time_sleep_sample w) (psutil_Process w) (time_sleep_interval w).

Definition with_process_iter (w : World) (iter : list Proc) : World :=
  mkWorld (psutil_cpu_percent w) (psutil_virtual_memory_percent w)
    (psutil_disk_usage_percent w) (psutil_pids w) iter
    (time_sleep_sample w) (psutil_Process w) (time_sleep_interval w).

(** [setup_logging(log_file)]: the level defaults to [logging.INFO]. *)
Definition setup_logging : Logger := mkLogger INFO.

(** The sampling interval of the source is an argument of the calls whose
    answers the world holds ([psutil.cpu_percent(interval=...)],
    [time.sleep(...)]); the checks below take the world instead. *)
Definition check_cpu_usage (threshold : Q) (logger : Logger) (w : World)
    : M (option Q * bool) :=
  r <- try_except
         (cpu_percent <- call (psutil_cpu_percent w) ;; ret (Some cpu_percent))
         [(is_Exception,
           fun e => error logger (MsgCpuReadFailed e) ;; ret None)] ;;
  match r with
  | None => ret (None, false)
  | Some cpu_percent =>
      if Qgtb cpu_percent threshold
      then warning logger (MsgHighCpu cpu_percent threshold) ;;
           ret (Some cpu_percent, true)
      else info logger (MsgCpu cpu_percent) ;;
           ret (Some cpu_percent, false)
  end.

Definition check_memory_usage (threshold : Q) (logger : Logger) (w : World)
    : M (option Q * bool) :=
  r <- try_except
         (mem_percent <- call (psutil_virtual_memory_percent w) ;;
          ret (Some mem_percent))
         [(is_Exception,
           fun e => error logger (MsgMemReadFailed e) ;; ret None)] ;;
  match r with
  | None => ret (None, false)
  | Some mem_percent =>
      if Qgtb mem_percent threshold
      then warning logger (MsgHighMem mem_percent threshold) ;;
           ret (Some mem_percent, true)
      else info logger (MsgMem mem_percent) ;;
           ret (Some mem_percent, false)
  end.

(** The body of [for path in paths], [alerts] being the list so far. *)
Definition disk_body (alerts : list (string * Q)) (path : string)
    (threshold : Q) (logger : Logger) (w : World) : M (list (string * Q)) :=
  try_except
    (pct <- call (psutil_disk_usage_percent w path) ;;
     if Qgtb pct threshold
     then warning logger (MsgHighDisk path pct threshold) ;;
          ret (alerts ++ [(path, pct)])
     else info logger (MsgDisk path pct) ;;
          ret alerts)
    [(is_Exception,
      fun e => info logger (MsgDiskError path e) ;; ret alerts)].

Fixpoint check_disk_usage_from (alerts : list (string * Q))
    (paths : list string) (threshold : Q) (logger : Logger) (w : World)
    : M (list (string * Q)) :=
  match paths with
  | [] => ret alerts
  | path :: rest =>
      alerts' <- disk_body alerts path threshold logger w ;;
      check_disk_usage_from alerts' rest threshold logger w
  end.

Definition check_disk_usage (paths : list string) (threshold : Q)
    (logger : Logger) (w : World) : M (list (string * Q)) :=
  check_disk_usage_from [] paths threshold logger w.

(** [procs[pid] = name]: a key the dict has keeps its place. *)
Fixpoint setitem (procs : list (Z * string)) (pid : Z) (name : string)
    : list (Z * string) :=
  match procs with
  | [] => [(pid, name)]
  | (pid', name') :: rest =>
      if (pid' =? pid)%Z then (pid, name) :: rest
      else (pid', name') :: setitem rest pid name
  end.

(** [proc.info.get("name") or ""] *)
Definition name_or_empty (name : option string) : string :=
  match name with
  | Some s => s
  | None => ""%string
  end.

(** First pass, the body of [for proc in psutil.process_iter(...)]:
    [procs] is the registry so far; [continue] leaves it as it is. *)
Definition first_pass_body (procs : list (Z * string)) (proc : Proc)
    : M (list (Z * string)) :=
  try_except
    (let pid := info_pid proc in
     let name := name_or_empty (info_name proc) in
     initialised <- try_except
       (_ <- call (cpu_percent_first proc) ;; ret true)
       [(is_NoSuchProcess_or_Zombie, fun _ => ret false)] ;;
     if initialised : bool then ret (setitem procs pid name)
     else ret procs)
    [(is_process_gone, fun _ => ret procs)].

Fixpoint first_pass (procs : list (Z * string)) (iter : list Proc)
    : M (list (Z * string)) :=
  match iter with
  | [] => ret procs
  | proc :: rest =>
      procs' <- first_pass_body procs proc ;;
      first_pass procs' rest
  end.

Definition snapshot (pid : Z) (name : string) (cpu_pct mem_pct : Q) : dict :=
  [("pid"%string, VInt pid); ("name"%string, VStr name);
   ("cpu"%string, VFloat cpu_pct); ("mem"%string, VFloat mem_pct)].

(** The three calls the second pass makes for one pid, in their order:
    [psutil.Process(pid)], [p.cpu_percent(None)], [p.memory_percent()]. *)
Definition query (w : World) (pid : Z) : outcome (option Q * Q) :=
  match psutil_Process w pid with
  | Raises e => Raises e
  | Returns p =>
      match cpu_percent p with
      | Raises e => Raises e
      | Returns cpu_pct =>
          match memory_percent p with
          | Raises e => Raises e
          | Returns mem_pct => Returns (cpu_pct, mem_pct)
          end
      end
  end.

(** Second pass, the body of [for pid, name in procs.items()] *)
Definition second_pass_body (high_cpu_processes : list dict)
    (pid : Z) (name : string) (process_cpu_threshold : Q)
    (logger : Logger) (w : World) : M (list dict) :=
  try_except
    (m <- call (query w pid) ;;
     let mem_pct := snd m in
     match fst m with
     | None => ret high_cpu_processes
     | Some cpu_pct =>
         if Qgtb cpu_pct process_cpu_threshold
         then ret (high_cpu_processes
                     ++ [snapshot pid name cpu_pct mem_pct])
         else ret high_cpu_processes
     end)
    [(is_process_gone, fun _ => ret high_cpu_processes);
     (is_Exception,
      fun e => debug logger (MsgProcCheckError pid e) ;;
               ret high_cpu_processes)].

Fixpoint second_pass (high_cpu_processes : list dict)
    (items : list (Z * string)) (process_cpu_threshold : Q)
    (logger : Logger) (w : World) : M (list dict) :=
  match items with
  | [] => ret high_cpu_processes
  | (pid, name) :: rest =>
      high' <- second_pass_body high_cpu_processes pid name
                 process_cpu_threshold logger w ;;
      second_pass high' rest process_cpu_threshold logger w
  end.

(** [for p in sorted(...): logger.warning(f"...")] *)
Fixpoint report_sorted (ranking : list dict) (logger : Logger) : M unit :=
  match ranking with
  | [] => ret tt
  | p :: rest =>
      pid <- call (getitem p "pid"%string) ;;
      name <- call (getitem p "name"%string) ;;
      cpu <- call (getitem p "cpu"%string) ;;
      mem <- call (getitem p "mem_percent"%string) ;;
      warning logger (MsgHighCpuProc pid name cpu mem) ;;
      report_sorted rest logger
  end.

(** [check_running_processes] in its four steps.  Reading the count: *)
Definition count_processes (logger : Logger) (w : World) : M (option Z) :=
  try_except
    (pids <- call (psutil_pids w) ;;
     ret (Some (Z.of_nat (List.length pids))))
    [(is_Exception,
      fun e => error logger (MsgProcCountFailed e) ;; ret None)].

(** [if process_count is not None: ...] *)
Definition process_count_alerts (process_count : option Z)
    (process_count_threshold : Z) (logger : Logger)
    : M (list (string * Z)) :=
  match process_count with
  | Some n =>
      if (n >? process_count_threshold)%Z
      then warning logger (MsgHighProcCount n process_count_threshold) ;;
           ret [("Process Count"%string, n)]
      else info logger (MsgTotalProcs n) ;; ret []
  | None => ret []
  end.

(** The two passes around the one shared sleep *)
Definition measure_high_cpu (process_cpu_threshold : Q) (logger : Logger)
    (w : World) : M (list dict) :=
  procs <- first_pass [] (psutil_process_iter w) ;;
  _ <- call (time_sleep_sample w) ;;
  second_pass [] procs process_cpu_threshold logger w.

(** [if high_cpu_processes: ... else: ...] *)
Definition report_high_cpu (high_cpu_processes : list dict)
    (logger : Logger) : M unit :=
  if truthy high_cpu_processes
  then warning logger MsgHighCpuProcsHeader ;;
       ranking <- call (sorted_reverse
                          (fun x => getitem x "cpu_percent"%string)
                          high_cpu_processes) ;;
       report_sorted ranking logger
  else info logger MsgNoHighCpuProcs.

Definition check_running_processes (process_cpu_threshold : Q)
    (process_count_threshold : Z) (logger : Logger) (w : World)
    : M (option Z * list dict * list (string * Z)) :=
  process_count <- count_processes logger w ;;
  alerts <- process_count_alerts process_count process_count_threshold
              logger ;;
  high_cpu_processes <- measure_high_cpu process_cpu_threshold logger w ;;
  _ <- report_high_cpu high_cpu_processes logger ;;
  ret (process_count, high_cpu_processes, alerts).

(** The body of [while True:] in [main]; the value is [cycle_alerts]. *)
Definition cycle (args : Args) (logger : Logger) (w : World) : M bool :=
  info logger MsgNewCycle ;;
  c <- check_cpu_usage (cpu_threshold args) logger w ;;
  let cpu_alert := snd c in
  m <- check_memory_usage (memory_threshold args) logger w ;;
  let mem_alert := snd m in
  disk_alerts <- check_disk_usage (disk_paths args) (disk_threshold args)
                   logger w ;;
  r <- check_running_processes (process_cpu_threshold args)
         (process_count_threshold args) logger w ;;
  let high_cpu_procs := snd (fst r) in
  let proc_alerts := snd r in
  let cycle_alerts :=
    cpu_alert || mem_alert || truthy disk_alerts || truthy high_cpu_procs
    || truthy proc_alerts in
  _ <- (if cycle_alerts then warning logger MsgAlertsRaised
        else info logger MsgAllOk) ;;
  info logger MsgCycleCompleted ;;
  _ <- call (time_sleep_interval w) ;;
  ret cycle_alerts.

(** [while True:] cut after [n] cycles; cycle [i] meets [worlds i]. *)
Fixpoint loop (n : nat) (args : Args) (logger : Logger)
    (worlds : nat -> World) (i : nat) : M unit :=
  match n with
  | O => ret tt
  | S n' =>
      _ <- cycle args logger (worlds i) ;;
      loop n' args logger worlds (S i)
  end.

(** Where [main] is when the model stops looking: inside the loop still,
    or returned. *)
Inductive state : Type := Looping | Returned.

(** [main], watched for [n] cycles *)
Definition main (n : nat) (args : Args) (worlds : nat -> World) : M state :=
  let logger := setup_logging in
  info logger MsgStarting ;;
  try_except
    (loop n args logger worlds 0 ;; ret Looping)
    [(is_KeyboardInterrupt,
      fun _ => info logger MsgStopped ;; ret Returned);
     (is_Exception,
      fun e => exception logger (MsgUnhandled e) ;; ret Returned)].

(** Exit status of the interpreter once [main()] is over: 0 when [main]
    returned, 1 when an exception left it. *)
Definition exit_status (o : outcome state) : option Z :=
  match o with
  | Returns Looping => None
  | Returns Returned => Some 0%Z
  | Raises _ => Some 1%Z
  end.

End SysMon.

(** ** exercise2/app_uptime_monitor.py *)

Module AppUptime.
Import Py.

Record Response : Type := mkResponse {
  status_code : Z
}.

(** [check_app_status(url, timeout)]; [requests_get] is what
    [requests.get] answers. *)
Definition check_app_status
    (requests_get : string -> Z -> outcome Response)
    (url : string) (timeout : Z) : outcome (string * option Z) :=
  match requests_get url timeout with
  | Returns response =>
      let code := status_code response in
      if ((200 <=? code) && (code <? 300))%Z
      then Returns ("UP"%string, Some code)
      else Returns ("DOWN"%string, Some code)
  | Raises e =>
      if is_RequestException e then Returns ("DOWN"%string, None)
      else Raises e
  end.

End AppUptime.

(** ** Concrete runs *)

Module Scenarios.
Import Py SysMon.

(** The defaults of the command line. *)
Definition default_args : Args :=
  mkArgs 60 (1 # 2) 80 80 90 20 500 ["/"%string].

(** A machine at rest: three processes, none of them busy. *)
Definition idle_process : Process :=
  mkProcess (Returns (Some (3 # 2))) (Returns (1 # 4)).

Definition quiet : World :=
  mkWorld (Returns 50) (Returns 40) (fun _ => Returns 30)
    (Returns [1; 2; 3]%Z)
    [mkProc 1 (Some "init"%string) (Returns 0);
     mkProc 2 (Some "sshd"%string) (Returns 0);
     mkProc 3 None (Returns 0)]
    (Returns tt)
    (fun _ => Returns idle_process)
    (Returns tt).

(** Scenario A: the root file system is 95% full and 600 processes run. *)
Definition scenario_a : World :=
  mkWorld (Returns 50) (Returns 40) (fun _ => Returns 95)
    (Returns (map Z.of_nat (seq 1 600)))
    (psutil_process_iter quiet)
    (Returns tt)
    (fun _ => Returns idle_process)
    (Returns tt).

(** One process, pid 42, uses half a core during the sampling window. *)
Definition busy : World :=
  mkWorld (Returns 50) (Returns 50) (fun _ => Returns 50)
    (Returns [1; 42]%Z)
    [mkProc 1 (Some "init"%string) (Returns 0);
     mkProc 42 (Some "stress"%string) (Returns 0)]
    (Returns tt)
    (fun pid => if (pid =? 42)%Z
                then Returns (mkProcess (Returns (Some 50)) (Returns 1))
                else Returns idle_process)
    (Returns tt).

(** Pid 2 is there in the first pass and gone in the second. *)
Definition vanishing : World :=
  mkWorld (Returns 50) (Returns 40) (fun _ => Returns 30)
    (Returns [1; 2; 3]%Z)
    (psutil_process_iter quiet)
    (Returns tt)
    (fun pid => if (pid =? 2)%Z then Raises NoSuchProcess
                else Returns idle_process)
    (Returns tt).

(** One disk path exists and is nearly full, the other does not exist. *)
Definition two_paths : list string := ["/"%string; "/nonexistent"%string].

Definition missing_path : World :=
  mkWorld (Returns 50) (Returns 40)
    (fun path => if String.eqb path "/" then Returns 95
                 else Raises (OtherException "FileNotFoundError"))
    (Returns [1; 2; 3]%Z)
    (psutil_process_iter quiet)
    (Returns tt)
    (fun _ => Returns idle_process)
    (Returns tt).

(** No sensor of the machine answers. *)
Definition unreadable : World :=
  mkWorld (Raises (OtherException "OSError"))
    (Raises (OtherException "OSError"))
    (fun _ => Raises (OtherException "OSError"))
    (Raises (OtherException "OSError"))
    (psutil_process_iter quiet)
    (Returns tt)
    (fun _ => Returns idle_process)
    (Returns tt).

(** The first read of one process counter fails with an I/O error. *)
Definition broken : World :=
  mkWorld (Returns 50) (Returns 40) (fun _ => Returns 30)
    (Returns [1; 2]%Z)
    [mkProc 1 (Some "init"%string) (Returns 0);
     mkProc 2 (Some "sshd"%string) (Raises (OtherException "OSError"))]
    (Returns tt)
    (fun _ => Returns idle_process)
    (Returns tt).

(** Ctrl-C arrives during the sleep between two cycles. *)
Definition interrupted : World :=
  mkWorld (Returns 50) (Returns 40) (fun _ => Returns 30)
    (Returns [1; 2; 3]%Z)
    (psutil_process_iter quiet)
    (Returns tt)
    (fun _ => Returns idle_process)
    (Raises KeyboardInterrupt).

(** [requests.get] on a server that answers 200, called through a
    library that refuses a timeout that is not positive with a
    [ValueError]. *)
Definition strict_timeout (url : string) (timeout : Z)
    : outcome AppUptime.Response :=
  if (timeout <=? 0)%Z then Raises (OtherException "ValueError")
  else Returns (AppUptime.mkResponse 200).

(** Every cycle meets the same world. *)
Definition always (w : World) : nat -> World := fun _ => w.

(** Two quiet cycles, then Ctrl-C. *)
Definition two_cycles_then_ctrl_c : nat -> World :=
  fun i => if (i <? 2)%nat then quiet else interrupted.

End Scenarios.

(** ** Vocabulary of the statements *)

Module Spec.
Import Py SysMon.

(** An alert that fires exactly above the threshold [T], and so never at
    the threshold itself. *)
Definition strictly_above (V T : Q) (fired : Prop) : Prop :=
  (fired <-> T < V) /\ (V == T -> ~ fired).

Definition strictly_aboveZ (n t : Z) (fired : Prop) : Prop :=
  (fired <-> (t < n)%Z) /\ (n = t -> ~ fired).

(** What one disk path adds to the alert list, and to the log. *)
Definition disk_alert (T : Q) (w : World) (path : string)
    : list (string * Q) :=
  match psutil_disk_usage_percent w path with
  | Returns pct => if Qgtb pct T then [(path, pct)] else []
  | Raises _ => []
  end.

Definition disk_log (T : Q) (logger : Logger) (w : World) (path : string)
    : list LogRecord :=
  match psutil_disk_usage_percent w path with
  | Returns pct =>
      if Qgtb pct T then emit logger WARNING false (MsgHighDisk path pct T)
      else emit logger INFO false (MsgDisk path pct)
  | Raises e => emit logger INFO false (MsgDiskError path e)
  end.

(** What one registry entry adds to the high-usage list, and to the log,
    in the second pass. *)
Definition snapshot_of (T : Q) (w : World) (item : Z * string)
    : list dict :=
  match query w (fst item) with
  | Returns (Some cpu_pct, mem_pct) =>
      if Qgtb cpu_pct T then [snapshot (fst item) (snd item) cpu_pct mem_pct]
      else []
  | _ => []
  end.

Definition second_log (logger : Logger) (w : World) (item : Z * string)
    : list LogRecord :=
  match query w (fst item) with
  | Returns _ => []
  | Raises e =>
      if is_process_gone e then []
      else emit logger DEBUG false (MsgProcCheckError (fst item) e)
  end.

(** Registry entries and processes of another pid than [pid] *)
Definition other_pid (pid : Z) (item : Z * string) : bool :=
  negb (fst item =? pid)%Z.

Definition other_proc (pid : Z) (proc : Proc) : bool :=
  negb (info_pid proc =? pid)%Z.

(** The line [main] logs last when the exception [e] ends the loop. *)
Definition last_line (e : exn) : LogRecord :=
  if is_KeyboardInterrupt e then mkRecord INFO MsgStopped false
  else mkRecord ERROR (MsgUnhandled e) true.

(** Cycles [0 .. k-1] run to their end. *)
Definition cycles_complete (args : Args) (worlds : nat -> World) (k : nat)
    : Prop :=
  forall j, (j < k)%nat ->
    exists b, result (cycle args setup_logging (worlds j)) = Returns b.

(** Number of cycles a log shows the start of. *)
Definition cycles_begun (log : list LogRecord) : nat :=
  List.length
    (filter (fun r => match msg r with MsgNewCycle => true | _ => false end)
       log).

End Spec.

(** ** The rest of the two programs *)

(** *** [str] methods the programs call

    A character is a code point below 256. *)

From Stdlib Require Import Ascii.

Module Str.

(** [c.isspace()]: tab, line feed, vertical tab, form feed, carriage
    return, the four separators 28 to 31, space, next line (133) and
    no-break space (160). *)
Definition isspace (c : ascii) : bool :=
  let n := nat_of_ascii c in
  ((9 <=? n) && (n <=? 13) || (28 <=? n) && (n <=? 32)
   || (n =? 133) || (n =? 160))%nat.

(** [s.lstrip()] *)
Fixpoint lstrip (s : string) : string :=
  match s with
  | EmptyString => EmptyString
  | String c s' => if isspace c then lstrip s' else s
  end.

(** [s.rstrip()] *)
Fixpoint rstrip (s : string) : string :=
  match s with
  | EmptyString => EmptyString
  | String c s' =>
      match rstrip s' with
      | EmptyString => if isspace c then EmptyString else String c EmptyString
      | r => String c r
      end
  end.

(** [s.strip()] *)
Definition strip (s : string) : string := rstrip (lstrip s).

(** Truth value of a string: [if s:] *)
Definition nonempty (s : string) : bool :=
  match s with
  | EmptyString => false
  | String _ _ => true
  end.

(** [s.startswith(c)] for a one-character prefix *)
Definition startswith (s : string) (c : ascii) : bool :=
  match s with
  | EmptyString => false
  | String c' _ => Ascii.eqb c' c
  end.

(** [c in s] *)
Fixpoint contains (c : ascii) (s : string) : bool :=
  match s with
  | EmptyString => false
  | String c' s' => Ascii.eqb c' c || contains c s'
  end.

(** [s.split(sep)] for a one-character separator: one piece more than
    there are separators. *)
Fixpoint split (sep : ascii) (s : string) : list string :=
  match s with
  | EmptyString => [EmptyString]
  | String c s' =>
      if Ascii.eqb c sep then EmptyString :: split sep s'
      else match split sep s' with
           | [] => [String c EmptyString]
           | piece :: pieces => String c piece :: pieces
           end
  end.

(** [sep.join(l)] *)
Fixpoint join (sep : ascii) (l : list string) : string :=
  match l with
  | [] => EmptyString
  | [piece] => piece
  | piece :: rest => (piece ++ String sep (join sep rest))%string
  end.

End Str.

(** *** exercise1: the logger object and the option [--disk-paths] *)

Module SysMonSetup.
Import Py.

Inductive Handler : Type :=
| RotatingFileHandler (log_file : string) (maxBytes backupCount : Z)
| StreamHandler.

(** The logger [logging.getLogger("sysmon_v1")]: one object per process,
    whatever the number of calls. *)
Record LoggerObject : Type := mkLoggerObject {
  level : Z;
  handlers : list Handler
}.

(** The object before the first call: [logging.NOTSET], no handler. *)
Definition fresh : LoggerObject := mkLoggerObject 0 [].

(** [setup_logging(log_file, level, max_bytes, backup_count)] on the
    object [logger]; the value is the object after the call. *)
Definition setup_logging (logger : LoggerObject) (log_file : string)
    (level max_bytes backup_count : Z) : LoggerObject :=
  let logger := mkLoggerObject level (handlers logger) in
  if negb (truthy (handlers logger))
  then
    let fh := RotatingFileHandler log_file max_bytes backup_count in
    let logger := mkLoggerObject level (handlers logger ++ [fh]) in
    let sh := StreamHandler in
    mkLoggerObject level (handlers logger ++ [sh])
  else logger.

(** The arguments of one call *)
Record Call : Type := mkCall {
  call_log_file : string;
  call_level : Z;
  call_max_bytes : Z;
  call_backup_count : Z
}.

(** Calls one after the other on the same object *)
Definition setup_logging_calls (logger : LoggerObject) (calls : list Call)
    : LoggerObject :=
  fold_left
    (fun lg c => setup_logging lg (call_log_file c) (call_level c)
                   (call_max_bytes c) (call_backup_count c))
    calls logger.

(** [[p.strip() for p in args.disk_paths.split(",") if p.strip()]],
    line 186 of [main] *)
Definition parse_disk_paths (disk_paths : string) : list string :=
  map Str.strip
    (filter (fun p => Str.nonempty (Str.strip p)) (Str.split "," disk_paths)).

End SysMonSetup.

(** *** exercise2: the configuration file, [monitor] and [main] *)

Module Uptime.
Import Py AppUptime.

(** The files of the machine: the lines a file yields when it is read,
    each with its line end, or nothing under that path. *)
Definition FileSystem : Type := string -> option (list string).

Definition FileNotFoundError : exn := OtherException "FileNotFoundError".

(** [except FileNotFoundError] *)
Definition is_FileNotFoundError (e : exn) : bool :=
  match e with
  | OtherException what => String.eqb what "FileNotFoundError"
  | _ => false
  end.

Definition read_urls_from_config (fs : FileSystem) (file_path : string)
    : outcome (list string) :=
  match fs file_path with
  | None => Raises FileNotFoundError
  | Some f =>
      Returns
        (map Str.strip
           (filter (fun line => Str.nonempty (Str.strip line)
                                && negb (Str.startswith line "#"))
              f))
  end.

(** The log lines of this program *)
Inductive uptime_message : Type :=
| MsgAppStatus (url status : string) (code : Z)
| MsgAppNoResponse (url status : string)
| MsgStartingCheck
| MsgCheckCompleted.

Record UptimeRecord : Type := mkUptimeRecord {
  uptime_level : Py.level;
  uptime_msg : uptime_message
}.

(** Computations of this program: a value or an exception, and the lines
    logged. *)
Definition W (A : Type) : Type := (outcome A * list UptimeRecord)%type.

Definition wbind {A B} (m : W A) (k : A -> W B) : W B :=
  match m with
  | (Returns a, l1) => let (r, l2) := k a in (r, l1 ++ l2)
  | (Raises e, l1) => (Raises e, l1)
  end.

(** [setup_logger(log_file)]: the logger and both handlers at INFO *)
Definition setup_logger : Logger := mkLogger INFO.

(** [logger.info(...)] and [logger.warning(...)] on the argument
    [logger], which is [None] unless the caller passes one: a method of
    [None] is an [AttributeError]. *)
Definition log_line (logger : option Logger) (lvl : Py.level)
    (m : uptime_message) : W unit :=
  match logger with
  | None => (Raises (OtherException "AttributeError"), [])
  | Some lg =>
      if (levelno (logger_level lg) <=? levelno lvl)%Z
      then (Returns tt, [mkUptimeRecord lvl m])
      else (Returns tt, [])
  end.

(** Truth value of a status code: [if code:] *)
Definition code_truthy (code : option Z) : bool :=
  match code with
  | Some c => negb (c =? 0)%Z
  | None => false
  end.

Definition entry : Type := (string * string * option Z)%type.

(** The body of [for url in urls] in [monitor] *)
Definition monitor_body (results : list entry) (url : string) (timeout : Z)
    (logger : option Logger)
    (requests_get : string -> Z -> outcome Response) : W (list entry) :=
  wbind (check_app_status requests_get url timeout, [])
    (fun sc =>
       let status := fst sc in
       let code := snd sc in
       wbind
         (match code with
          | Some c =>
              if code_truthy code
              then log_line logger INFO (MsgAppStatus url status c)
              else log_line logger WARNING (MsgAppNoResponse url status)
          | None => log_line logger WARNING (MsgAppNoResponse url status)
          end)
         (fun _ => (Returns (results ++ [(url, status, code)]), []))).

Fixpoint monitor_from (results : list entry) (urls : list string)
    (timeout : Z) (logger : option Logger)
    (requests_get : string -> Z -> outcome Response) : W (list entry) :=
  match urls with
  | [] => (Returns results, [])
  | url :: rest =>
      wbind (monitor_body results url timeout logger requests_get)
        (fun results' =>
           monitor_from results' rest timeout logger requests_get)
  end.

(** [monitor(urls, timeout, logger)] *)
Definition monitor (urls : list string) (timeout : Z)
    (logger : option Logger)
    (requests_get : string -> Z -> outcome Response) : W (list entry) :=
  monitor_from [] urls timeout logger requests_get.

(** What [main] leaves behind: the lines printed, the lines logged, and
    how it ended. *)
Record Run : Type := mkRun {
  printed : list string;
  run_log : list UptimeRecord;
  ended : outcome unit
}.

(** The text of the [FileNotFoundError] of [read_urls_from_config] *)
Definition not_found_text (file_path : string) : string :=
  ("Config file " ++ file_path ++ " not found.")%string.

(** [main] with the parsed options [--config] and [--timeout];
    [print(e)] prints the text of the error. *)
Definition main (fs : FileSystem)
    (requests_get : string -> Z -> outcome Response)
    (config : string) (timeout : Z) : Run :=
  match read_urls_from_config fs config with
  | Raises e =>
      if is_FileNotFoundError e
      then mkRun [not_found_text config] [] (Returns tt)
      else mkRun [] [] (Raises e)
  | Returns urls =>
      let logger := Some setup_logger in
      let m :=
        wbind (log_line logger INFO MsgStartingCheck)
          (fun _ =>
             wbind (monitor urls timeout logger requests_get)
               (fun _ => log_line logger INFO MsgCheckCompleted)) in
      mkRun [] (snd m) (fst m)
  end.

End Uptime.

(** *** Vocabulary of the statements about the rest *)

Module More.
Import Py SysMon AppUptime Uptime.

(** A string that begins, or ends, with white space *)
Definition first_is_space (s : string) : bool :=
  match s with
  | EmptyString => false
  | String c _ => Str.isspace c
  end.

Fixpoint last_is_space (s : string) : bool :=
  match s with
  | EmptyString => false
  | String c EmptyString => Str.isspace c
  | String _ s' => last_is_space s'
  end.

(** A string with something in it and no white space around it *)
Definition trimmed (s : string) : Prop :=
  s <> EmptyString /\ first_is_space s = false /\ last_is_space s = false.

(** A status code of the class 2xx *)
Definition is_2xx (code : Z) : Prop := (200 <= code < 300)%Z.

(** The entry [monitor] appends for a URL whose check returns *)
Definition entry_of (requests_get : string -> Z -> outcome Response)
    (timeout : Z) (url : string) : list entry :=
  match check_app_status requests_get url timeout with
  | Returns (status, code) => [(url, status, code)]
  | Raises _ => []
  end.

(** The line [monitor] logs for a URL whose check returns *)
Definition line_of (requests_get : string -> Z -> outcome Response)
    (timeout : Z) (url : string) : list UptimeRecord :=
  match check_app_status requests_get url timeout with
  | Returns (status, Some c) =>
      if (c =? 0)%Z
      then [mkUptimeRecord WARNING (MsgAppNoResponse url status)]
      else [mkUptimeRecord INFO (MsgAppStatus url status c)]
  | Returns (status, None) =>
      [mkUptimeRecord WARNING (MsgAppNoResponse url status)]
  | Raises _ => []
  end.

(** Every request of the list is answered, or fails as a request *)
Definition requests_settle (requests_get : string -> Z -> outcome Response)
    (timeout : Z) (urls : list string) : Prop :=
  forall url e, In url urls -> requests_get url timeout = Raises e ->
    is_RequestException e = true.

(** The summary line of a cycle *)
Definition summary_line (cycle_alerts : bool) : LogRecord :=
  if cycle_alerts then mkRecord WARNING MsgAlertsRaised false
  else mkRecord INFO MsgAllOk false.

End More.

(** *** More concrete runs *)

Module MoreScenarios.
Import Py SysMon.

(** Ctrl-C arrives while the second pass queries pid 2. *)
Definition ctrl_c_in_scan : World :=
  mkWorld (Returns 50) (Returns 40) (fun _ => Returns 30)
    (Returns [1; 2; 3]%Z)
    (psutil_process_iter Scenarios.quiet)
    (Returns tt)
    (fun pid => if (pid =? 2)%Z then Raises KeyboardInterrupt
                else Returns Scenarios.idle_process)
    (Returns tt).

(** ["/"] is nearly full; Ctrl-C arrives while ["/var"] is read. *)
Definition ctrl_c_on_disk : World :=
  mkWorld (Returns 50) (Returns 40)
    (fun path => if String.eqb path "/" then Returns 95
                 else Raises KeyboardInterrupt)
    (Returns [1; 2; 3]%Z)
    (psutil_process_iter Scenarios.quiet)
    (Returns tt)
    (fun _ => Returns Scenarios.idle_process)
    (Returns tt).

End MoreScenarios.

(** ** Properties *)

Import Py SysMon Spec.
Local Open Scope py_scope.

(** *** The arithmetic of the threshold test *)

Lemma Qgtb_iff (a b : Q) : Qgtb a b = true <-> b < a.
Proof.
  unfold Qgtb. rewrite negb_true_iff, <- not_true_iff_false, Qle_bool_iff.
  split; [apply Qnot_le_lt | apply Qlt_not_le].
Qed.

Lemma Qgtb_eq (a b : Q) : a == b -> Qgtb a b = false.
Proof.
  intros H. apply not_true_iff_false. rewrite Qgtb_iff, H.
  apply Qlt_irrefl.
Qed.

(** *** Running a computation *)

Lemma bind_assoc A B C (m : M A) (k : A -> M B) (h : B -> M C) :
  bind (bind m k) h = bind m (fun a => bind (k a) h).
Proof.
  destruct m as [[a | e] l]; simpl; [| reflexivity].
  destruct (k a) as [[b | e] l2]; simpl; [| reflexivity].
  destruct (h b) as [r l3]. now rewrite app_assoc.
Qed.

Lemma bind_ret_l A B (a : A) (k : A -> M B) : bind (ret a) k = k a.
Proof. unfold ret, bind. now destruct (k a). Qed.

Lemma bind_nil A B (a : A) (k : A -> M B) :
  bind (Returns a, []) k = k a.
Proof. apply bind_ret_l. Qed.

Lemma bind_ret_r A (m : M A) : bind m ret = m.
Proof.
  destruct m as [[a | e] l]; simpl; [| reflexivity].
  now rewrite app_nil_r.
Qed.

Lemma strictly_above_bool (V T : Q) :
  strictly_above V T (Qgtb V T = true).
Proof.
  split; [apply Qgtb_iff |].
  intros H. now rewrite (Qgtb_eq H).
Qed.

(** *** Thresholds *)

Lemma check_cpu_usage_value V T logger w :
  psutil_cpu_percent w = Returns V ->
  result (check_cpu_usage T logger w) = Returns (Some V, Qgtb V T).
Proof.
  intros H. unfold check_cpu_usage, call. rewrite H. simpl.
  now destruct (Qgtb V T).
Qed.

Lemma check_memory_usage_value V T logger w :
  psutil_virtual_memory_percent w = Returns V ->
  result (check_memory_usage T logger w) = Returns (Some V, Qgtb V T).
Proof.
  intros H. unfold check_memory_usage, call. rewrite H. simpl.
  now destruct (Qgtb V T).
Qed.

(** *** Disk paths *)

Section Disk.

Variables (T : Q) (logger : Logger) (w : World).

Lemma disk_body_spec alerts path :
  (forall e, psutil_disk_usage_percent w path = Raises e ->
     is_Exception e = true) ->
  disk_body alerts path T logger w
  = (Returns (alerts ++ disk_alert T w path), disk_log T logger w path).
Proof.
  intros H. unfold disk_body, disk_alert, disk_log, call.
  destruct (psutil_disk_usage_percent w path) as [pct | e].
  - simpl. destruct (Qgtb pct T); simpl; now rewrite ?app_nil_r.
  - simpl. rewrite (H e eq_refl). simpl. now rewrite ?app_nil_r.
Qed.

Lemma check_disk_usage_from_spec paths : forall alerts,
  (forall path e, In path paths ->
     psutil_disk_usage_percent w path = Raises e -> is_Exception e = true) ->
  check_disk_usage_from alerts paths T logger w
  = (Returns (alerts ++ flat_map (disk_alert T w) paths),
     flat_map (disk_log T logger w) paths).
Proof.
  induction paths as [| path rest IH]; intros alerts H.
  - simpl. now rewrite app_nil_r.
  - cbn [check_disk_usage_from flat_map].
    rewrite disk_body_spec by (intros e; apply H; now left).
    unfold bind. rewrite IH by (intros p e Hp; apply H; now right).
    now rewrite <- app_assoc.
Qed.

Lemma check_disk_usage_spec paths :
  (forall path e, In path paths ->
     psutil_disk_usage_percent w path = Raises e -> is_Exception e = true) ->
  check_disk_usage paths T logger w
  = (Returns (flat_map (disk_alert T w) paths),
     flat_map (disk_log T logger w) paths).
Proof. intros H. unfold check_disk_usage. now rewrite check_disk_usage_from_spec. Qed.

Lemma in_disk_alert path p pct :
  In (p, pct) (disk_alert T w path)
  <-> p = path /\ psutil_disk_usage_percent w path = Returns pct /\ T < pct.
Proof.
  unfold disk_alert.
  destruct (psutil_disk_usage_percent w path) as [v | e].
  - destruct (Qgtb v T) eqn:G; simpl.
    + apply Qgtb_iff in G. split.
      * intros [[= <- <-] | []]. auto.
      * intros (-> & [= ->] & _). now left.
    + split; [intros [] |]. intros (_ & [= ->] & L).
      apply Qgtb_iff in L. congruence.
  - simpl. split; [intros [] | intros (_ & [=] & _)].
Qed.

End Disk.

(** *** Results and logs of a sequence *)

Lemma result_bind A B (m : M A) (k : A -> M B) :
  result (bind m k)
  = match result m with
    | Returns a => result (k a)
    | Raises e => Raises e
    end.
Proof.
  destruct m as [[a | e] l]; simpl; [| reflexivity]. now destruct (k a).
Qed.

Lemma logged_bind A B (m : M A) (k : A -> M B) :
  logged (bind m k)
  = logged m ++ match result m with
                | Returns a => logged (k a)
                | Raises _ => []
                end.
Proof.
  destruct m as [[a | e] l]; simpl; [| now rewrite app_nil_r].
  now destruct (k a).
Qed.

(** *** The registry of the first pass *)

Lemma length_setitem procs pid name :
  (List.length (setitem procs pid name) <= S (List.length procs))%nat.
Proof.
  induction procs as [| [p n] rest IH]; simpl; [lia |].
  destruct (p =? pid)%Z; simpl; lia.
Qed.

Lemma in_setitem procs pid name p n :
  In (p, n) (setitem procs pid name) ->
  (p, n) = (pid, name) \/ In (p, n) procs.
Proof.
  induction procs as [| [p' n'] rest IH]; simpl.
  - intros [H | []]. now left.
  - destruct (p' =? pid)%Z; simpl.
    + intros [H | H]; [now left | right; now right].
    + intros [H | H]; [right; now left |].
      destruct (IH H) as [E | E]; [now left | right; now right].
Qed.

Lemma filter_setitem_same procs pid name :
  filter (other_pid pid) (setitem procs pid name)
  = filter (other_pid pid) procs.
Proof.
  induction procs as [| [p n] rest IH]; unfold other_pid in *; simpl.
  - now rewrite Z.eqb_refl.
  - destruct (p =? pid)%Z eqn:E; simpl.
    + now rewrite Z.eqb_refl.
    + rewrite E. simpl. now rewrite IH.
Qed.

Lemma filter_setitem_other procs pid p name :
  p <> pid ->
  filter (other_pid pid) (setitem procs p name)
  = setitem (filter (other_pid pid) procs) p name.
Proof.
  intros Hp. apply Z.eqb_neq in Hp.
  induction procs as [| [p' n'] rest IH]; unfold other_pid in *; simpl.
  - now rewrite Hp.
  - destruct (p' =? p)%Z eqn:E; simpl.
    + apply Z.eqb_eq in E. subst p'. rewrite Hp. simpl.
      now rewrite Z.eqb_refl.
    + destruct (p' =? pid)%Z; simpl; [apply IH |].
      rewrite E. now rewrite IH.
Qed.

Lemma first_pass_body_spec procs proc :
  first_pass_body procs proc
  = match cpu_percent_first proc with
    | Returns _ =>
        (Returns (setitem procs (info_pid proc)
                    (name_or_empty (info_name proc))), [])
    | Raises e =>
        if is_process_gone e then (Returns procs, []) else (Raises e, [])
    end.
Proof.
  unfold first_pass_body, call.
  destruct (cpu_percent_first proc) as [v | e]; [reflexivity |].
  now destruct e.
Qed.

Lemma first_pass_logs_nothing iter : forall procs,
  logged (first_pass procs iter) = [].
Proof.
  induction iter as [| proc rest IH]; intros procs; [reflexivity |].
  cbn [first_pass]. rewrite logged_bind, first_pass_body_spec.
  destruct (cpu_percent_first proc) as [v | e]; simpl; [apply IH |].
  destruct (is_process_gone e); simpl; [apply IH | reflexivity].
Qed.

Lemma first_pass_registry iter : forall procs procs',
  result (first_pass procs iter) = Returns procs' ->
  (List.length procs' <= List.length procs + List.length iter)%nat /\
  forall pid name, In (pid, name) procs' ->
    In (pid, name) procs \/
    exists proc v, In proc iter /\ info_pid proc = pid /\
                   cpu_percent_first proc = Returns v.
Proof.
  induction iter as [| proc rest IH]; intros procs procs'.
  - simpl. intros [= <-]. split; [lia | auto].
  - cbn [first_pass]. rewrite result_bind, first_pass_body_spec.
    destruct (cpu_percent_first proc) as [v | e] eqn:E; simpl.
    + intros H. destruct (IH _ _ H) as [L P]. split.
      * pose proof (length_setitem procs (info_pid proc)
                      (name_or_empty (info_name proc))). lia.
      * intros pid name I. destruct (P pid name I) as [I' | (q & u & ? & ? & ?)].
        -- destruct (in_setitem _ _ _ _ _ I') as [[= -> ->] | ?]; [| now left].
           right. exists proc, v. auto.
        -- right. exists q, u. auto.
    + destruct (is_process_gone e); simpl; [| discriminate].
      intros H. destruct (IH _ _ H) as [L P]. split; [lia |].
      intros pid name I. destruct (P pid name I) as [? | (q & u & ? & ? & ?)];
        [now left |].
      right. exists q, u. auto.
Qed.

Lemma first_pass_filter pid iter : forall procs procs',
  result (first_pass procs iter) = Returns procs' ->
  first_pass (filter (other_pid pid) procs) (filter (other_proc pid) iter)
  = (Returns (filter (other_pid pid) procs'), []).
Proof.
  induction iter as [| proc rest IH]; intros procs procs'.
  - simpl. now intros [= <-].
  - cbn [first_pass filter]. rewrite result_bind, first_pass_body_spec.
    unfold other_proc at 1.
    destruct (info_pid proc =? pid)%Z eqn:P; simpl.
    + apply Z.eqb_eq in P.
      destruct (cpu_percent_first proc) as [v | e]; simpl.
      * intros H. rewrite <- (IH _ _ H). rewrite P.
        now rewrite filter_setitem_same.
      * destruct (is_process_gone e); simpl; [apply IH | discriminate].
    + apply Z.eqb_neq in P. rewrite first_pass_body_spec.
      destruct (cpu_percent_first proc) as [v | e]; simpl result.
      * intros H. rewrite bind_nil.
        rewrite <- filter_setitem_other by assumption. now apply IH.
      * destruct (is_process_gone e); simpl result; [| discriminate].
        intros H. rewrite bind_nil. now apply IH.
Qed.

(** *** The second pass *)

Section SecondPass.

Variables (T : Q) (logger : Logger) (w : World).

Lemma second_pass_body_spec high pid name :
  second_pass_body high pid name T logger w
  = match query w pid with
    | Returns _ => (Returns (high ++ snapshot_of T w (pid, name)), [])
    | Raises e =>
        if is_process_gone e then (Returns high, [])
        else if is_Exception e
             then (Returns high,
                   emit logger DEBUG false (MsgProcCheckError pid e))
             else (Raises e, [])
    end.
Proof.
  unfold second_pass_body, snapshot_of, call. simpl fst. simpl snd.
  destruct (query w pid) as [[[cpu |] mem] | e]; simpl.
  - destruct (Qgtb cpu T); simpl; now rewrite ?app_nil_r.
  - now rewrite app_nil_r.
  - destruct e; simpl; now rewrite ?app_nil_r.
Qed.

Lemma snapshot_of_raises pid name e :
  query w pid = Raises e -> snapshot_of T w (pid, name) = [].
Proof. unfold snapshot_of. simpl. now intros ->. Qed.

Lemma second_pass_result items : forall high high',
  result (second_pass high items T logger w) = Returns high' ->
  high' = high ++ flat_map (snapshot_of T w) items.
Proof.
  induction items as [| [pid name] rest IH]; intros high high'.
  - simpl. intros [= <-]. now rewrite app_nil_r.
  - cbn [second_pass flat_map]. rewrite result_bind, second_pass_body_spec.
    destruct (query w pid) as [m | e] eqn:E; simpl result.
    + intros H. rewrite (IH _ _ H). now rewrite <- app_assoc.
    + rewrite (snapshot_of_raises pid name E). simpl app.
      destruct (is_process_gone e); simpl result; [apply IH |].
      destruct (is_Exception e); simpl result; [apply IH | discriminate].
Qed.

Lemma second_pass_spec items : forall high,
  (forall pid name e, In (pid, name) items -> query w pid = Raises e ->
     is_Exception e = true) ->
  second_pass high items T logger w
  = (Returns (high ++ flat_map (snapshot_of T w) items),
     flat_map (second_log logger w) items).
Proof.
  induction items as [| [pid name] rest IH]; intros high H.
  - simpl. now rewrite app_nil_r.
  - assert (Hrest : forall p n e, In (p, n) rest -> query w p = Raises e ->
              is_Exception e = true)
      by (intros p n e I; apply (H p n e); now right).
    cbn [second_pass flat_map]. rewrite second_pass_body_spec.
    unfold second_log at 1. simpl fst.
    destruct (query w pid) as [m | e] eqn:E.
    + rewrite bind_nil, (IH _ Hrest). now rewrite <- app_assoc.
    + rewrite (snapshot_of_raises pid name E). simpl app.
      destruct (is_process_gone e).
      * now rewrite bind_nil, (IH _ Hrest).
      * rewrite (H pid name e (or_introl eq_refl) E).
        unfold bind. now rewrite (IH _ Hrest).
Qed.

Lemma second_pass_skips pid items : forall high,
  (exists e, query w pid = Raises e /\ is_process_gone e = true) ->
  second_pass high items T logger w
  = second_pass high (filter (other_pid pid) items) T logger w.
Proof.
  intros high (e & E & G). revert high.
  induction items as [| [p n] rest IH]; intros high; [reflexivity |].
  cbn [second_pass filter]. unfold other_pid at 1. simpl fst.
  destruct (p =? pid)%Z eqn:P; simpl negb; cbv iota.
  - apply Z.eqb_eq in P. subst p.
    rewrite second_pass_body_spec, E, G, bind_nil. apply IH.
  - cbn [second_pass].
    destruct (second_pass_body high p n T logger w) as [[h | x] l];
      simpl; [| reflexivity].
    now rewrite IH.
Qed.

Lemma in_snapshot_of item s :
  In s (snapshot_of T w item) ->
  exists cpu mem,
    s = snapshot (fst item) (snd item) cpu mem /\
    query w (fst item) = Returns (Some cpu, mem) /\ T < cpu.
Proof.
  unfold snapshot_of.
  destruct (query w (fst item)) as [[[cpu |] mem] | e]; simpl; try tauto.
  destruct (Qgtb cpu T) eqn:G; simpl; [| tauto].
  intros [<- | []]. exists cpu, mem. apply Qgtb_iff in G. auto.
Qed.

Lemma length_snapshots items :
  (List.length (flat_map (snapshot_of T w) items) <= List.length items)%nat.
Proof.
  induction items as [| item rest IH]; simpl; [lia |].
  rewrite length_app.
  assert (List.length (snapshot_of T w item) <= 1)%nat; [| lia].
  unfold snapshot_of.
  destruct (query w (fst item)) as [[[cpu |] mem] | e]; simpl; try lia.
  destruct (Qgtb cpu T); simpl; lia.
Qed.

End SecondPass.

Lemma second_pass_ext T logger w w' items : forall high,
  (forall pid, query w pid = query w' pid) ->
  second_pass high items T logger w = second_pass high items T logger w'.
Proof.
  intros high H. revert high.
  induction items as [| [pid name] rest IH]; intros high; [reflexivity |].
  cbn [second_pass]. unfold second_pass_body. rewrite (H pid).
  destruct (try_except _ _) as [[h | e] l]; simpl; [| reflexivity].
  now rewrite IH.
Qed.

(** *** The two passes together *)

Section Measure.

Variables (T : Q) (logger : Logger) (w : World).

Lemma first_pass_pair procs :
  result (first_pass [] (psutil_process_iter w)) = Returns procs ->
  first_pass [] (psutil_process_iter w) = (Returns procs, []).
Proof.
  intros H. pose proof (first_pass_logs_nothing (psutil_process_iter w) [])
    as L.
  destruct (first_pass [] (psutil_process_iter w)) as [r l].
  simpl in *. now subst.
Qed.

Lemma measure_high_cpu_result high :
  result (measure_high_cpu T logger w) = Returns high ->
  exists procs,
    result (first_pass [] (psutil_process_iter w)) = Returns procs /\
    result (second_pass [] procs T logger w) = Returns high.
Proof.
  unfold measure_high_cpu. rewrite result_bind.
  destruct (result (first_pass [] (psutil_process_iter w))) as [procs | e];
    [| discriminate].
  rewrite result_bind. unfold call. simpl.
  destruct (time_sleep_sample w); [| discriminate].
  intros H. now exists procs.
Qed.

Lemma measure_high_cpu_snapshots high s :
  result (measure_high_cpu T logger w) = Returns high ->
  In s high ->
  exists pid name cpu mem, s = snapshot pid name cpu mem.
Proof.
  intros H I. destruct (measure_high_cpu_result H) as (procs & _ & S).
  apply second_pass_result in S. simpl in S. subst high.
  apply in_flat_map in I. destruct I as (item & _ & I).
  apply in_snapshot_of in I. destruct I as (cpu & mem & -> & _).
  now exists (fst item), (snd item), cpu, mem.
Qed.

Lemma measure_without pid procs :
  result (first_pass [] (psutil_process_iter w)) = Returns procs ->
  (exists e, query w pid = Raises e /\ is_process_gone e = true) ->
  measure_high_cpu T logger w
  = measure_high_cpu T logger
      (with_process_iter w
         (filter (other_proc pid) (psutil_process_iter w))).
Proof.
  intros H G. unfold measure_high_cpu.
  cbn [with_process_iter psutil_process_iter time_sleep_sample].
  rewrite (first_pass_pair H).
  pose proof (first_pass_filter pid _ [] H) as F. simpl filter in F.
  rewrite F, !bind_nil.
  destruct (time_sleep_sample w) as [[] | e]; [| reflexivity].
  unfold call. rewrite !bind_nil.
  rewrite (@second_pass_skips T logger w pid procs [] G).
  now apply second_pass_ext.
Qed.

End Measure.

(** *** Reporting the high-usage list *)

Lemma sorted_snapshot_raises pid name cpu mem rest :
  sorted_reverse (fun x => getitem x "cpu_percent"%string)
    (snapshot pid name cpu mem :: rest)
  = Raises (KeyError "cpu_percent").
Proof. reflexivity. Qed.

(** Under the key the entries do have, [sorted] ranks by falling
    percentage and keeps entries of equal percentage in their order. *)
Example sorted_by_the_stored_key :
  sorted_reverse (fun x => getitem x "cpu"%string)
    [snapshot 7 "a" 50 1; snapshot 8 "b" 70 1; snapshot 9 "c" 50 2]
  = Returns [snapshot 8 "b" 70 1; snapshot 7 "a" 50 1; snapshot 9 "c" 50 2].
Proof. reflexivity. Qed.

Lemma report_high_cpu_raises high logger :
  high <> [] ->
  (forall s, In s high -> exists pid name cpu mem,
               s = snapshot pid name cpu mem) ->
  report_high_cpu high logger
  = (Raises (KeyError "cpu_percent"),
     emit logger WARNING false MsgHighCpuProcsHeader).
Proof.
  intros N S. destruct high as [| s rest]; [congruence |].
  destruct (S s (or_introl eq_refl)) as (pid & name & cpu & mem & ->).
  unfold report_high_cpu. cbn [truthy].
  rewrite sorted_snapshot_raises. unfold warning, log_at, call. simpl.
  now rewrite app_nil_r.
Qed.

Lemma second_pass_logged T logger w items : forall high r,
  In r (logged (second_pass high items T logger w)) ->
  exists pid name e,
    In (pid, name) items /\ query w pid = Raises e /\
    is_process_gone e = false /\
    r = mkRecord DEBUG (MsgProcCheckError pid e) false.
Proof.
  induction items as [| [pid name] rest IH]; intros high r; [intros [] |].
  cbn [second_pass]. rewrite logged_bind, second_pass_body_spec.
  intros I. apply in_app_or in I.
  assert (Hrest : forall h, In r (logged (second_pass h rest T logger w)) ->
            exists p n e, In (p, n) ((pid, name) :: rest) /\
              query w p = Raises e /\ is_process_gone e = false /\
              r = mkRecord DEBUG (MsgProcCheckError p e) false).
  { intros h J. destruct (IH _ _ J) as (p & n & e & ? & ? & ? & ?).
    exists p, n, e. repeat split; auto. now right. }
  destruct (query w pid) as [m | e] eqn:E.
  - destruct I as [[] | I]. now apply (Hrest _ I).
  - destruct (is_process_gone e) eqn:G.
    + destruct I as [[] | I]. now apply (Hrest _ I).
    + destruct (is_Exception e); simpl in I.
      * destruct I as [I | I]; [| now apply (Hrest _ I)].
        unfold emit in I. destruct (_ <=? _)%Z; [| destruct I].
        destruct I as [<- | []]. exists pid, name, e.
        repeat split; auto. now left.
      * destruct I as [[] | []].
Qed.

(** *** Claims about the checks *)

(** C4.  In each of the five checks the alert is raised exactly when the
    value read is strictly greater than the threshold, and a value equal
    to the threshold raises none: the flag of [check_cpu_usage] and of
    [check_memory_usage], the alert entry of [check_disk_usage] for a
    path, the process-count entry of [check_running_processes], and the
    entry one process adds to the high-usage list. *)
Theorem alerts_are_strictly_above_threshold
    (V T : Q) (logger : Logger) (w : World) :
  (psutil_cpu_percent w = Returns V ->
   exists alert,
     result (check_cpu_usage T logger w) = Returns (Some V, alert) /\
     strictly_above V T (alert = true)) /\
  (psutil_virtual_memory_percent w = Returns V ->
   exists alert,
     result (check_memory_usage T logger w) = Returns (Some V, alert) /\
     strictly_above V T (alert = true)) /\
  (forall path, psutil_disk_usage_percent w path = Returns V ->
   exists alerts,
     result (check_disk_usage [path] T logger w) = Returns alerts /\
     (alerts = [(path, V)] \/ alerts = []) /\
     strictly_above V T (alerts = [(path, V)])) /\
  (forall n t : Z,
   exists alerts,
     result (process_count_alerts (Some n) t logger) = Returns alerts /\
     (alerts = [("Process Count"%string, n)] \/ alerts = []) /\
     strictly_aboveZ n t (alerts = [("Process Count"%string, n)])) /\
  (forall pid name mem, query w pid = Returns (Some V, mem) ->
   exists high,
     result (second_pass [] [(pid, name)] T logger w) = Returns high /\
     (high = [snapshot pid name V mem] \/ high = []) /\
     strictly_above V T (high = [snapshot pid name V mem])).
Proof.
  pose proof (strictly_above_bool V T) as [B E].
  assert (S : forall A (x : A) l,
            l = (if Qgtb V T then [x] else []) ->
            (l = [x] \/ l = []) /\ strictly_above V T (l = [x])).
  { intros A x l ->. unfold strictly_above.
    destruct (Qgtb V T); (split; [auto |]); split.
    - split; [intros _; now apply B | reflexivity].
    - intros H. now apply E in H.
    - split; [discriminate | intros L; now apply B in L].
    - intros _. discriminate. }
  repeat split.
  - intros H. exists (Qgtb V T).
    split; [now apply check_cpu_usage_value | apply strictly_above_bool].
  - intros H. exists (Qgtb V T).
    split; [now apply check_memory_usage_value | apply strictly_above_bool].
  - intros path H. exists (if Qgtb V T then [(path, V)] else []).
    split; [| now apply S].
    unfold check_disk_usage, check_disk_usage_from, disk_body, call.
    rewrite H. simpl. now destruct (Qgtb V T).
  - intros n t. exists (if (n >? t)%Z then [("Process Count"%string, n)] else []).
    simpl. unfold strictly_aboveZ. rewrite Z.gtb_ltb.
    destruct (Z.ltb_spec t n); simpl; repeat split; auto; try lia;
      try discriminate.
  - intros pid name mem H.
    exists (if Qgtb V T then [snapshot pid name V mem] else []).
    split; [| now apply S].
    cbn [second_pass]. rewrite result_bind, second_pass_body_spec, H.
    unfold snapshot_of. simpl. rewrite H. now destruct (Qgtb V T).
Qed.

Lemma alerts_are_strictly_above_threshold_witness :
  (exists alert,
     result (check_cpu_usage 20 setup_logging Scenarios.busy)
     = Returns (Some 50, alert) /\ strictly_above 50 20 (alert = true)) /\
  (exists alert,
     result (check_memory_usage 20 setup_logging Scenarios.busy)
     = Returns (Some 50, alert) /\ strictly_above 50 20 (alert = true)) /\
  (exists alerts,
     result (check_disk_usage ["/"%string] 20 setup_logging Scenarios.busy)
     = Returns alerts /\
     (alerts = [("/"%string, 50)] \/ alerts = []) /\
     strictly_above 50 20 (alerts = [("/"%string, 50)])) /\
  (exists high,
     result (second_pass [] [(42%Z, "stress"%string)] 20 setup_logging
               Scenarios.busy) = Returns high /\
     (high = [snapshot 42 "stress" 50 1] \/ high = []) /\
     strictly_above 50 20 (high = [snapshot 42 "stress" 50 1])).
Proof.
  destruct (alerts_are_strictly_above_threshold 50 20 setup_logging
              Scenarios.busy) as (C & Me & D & _ & H).
  split; [exact (C eq_refl) |].
  split; [exact (Me eq_refl) |].
  split; [exact (D "/"%string eq_refl) |].
  exact (H 42%Z "stress"%string 1 eq_refl).
Defined.

(** C6.  When no read is interrupted by Ctrl-C, so that a read that fails
    fails with an ordinary exception, [check_disk_usage] returns: every
    path is evaluated, in the order given and as if it were alone, and
    the alert list holds exactly the paths that were read and whose usage
    is above the threshold. *)
Theorem disk_failures_are_isolated
    (paths : list string) (T : Q) (logger : Logger) (w : World) :
  (forall path e, In path paths ->
     psutil_disk_usage_percent w path = Raises e -> is_Exception e = true) ->
  exists alerts,
    result (check_disk_usage paths T logger w) = Returns alerts /\
    alerts = flat_map (disk_alert T w) paths /\
    (forall path pct,
       In (path, pct) alerts <->
       In path paths /\
       psutil_disk_usage_percent w path = Returns pct /\ T < pct) /\
    logged (check_disk_usage paths T logger w)
    = flat_map (fun path => logged (check_disk_usage [path] T logger w))
        paths.
Proof.
  intros H. exists (flat_map (disk_alert T w) paths).
  rewrite (check_disk_usage_spec T logger w paths H).
  split; [reflexivity |]. split; [reflexivity |]. split.
  - intros path pct. rewrite in_flat_map. split.
    + intros (p & Ip & I). apply in_disk_alert in I.
      destruct I as (-> & R & L). auto.
    + intros (Ip & R & L). exists path. split; [assumption |].
      apply in_disk_alert. auto.
  - simpl. rewrite !flat_map_concat_map. f_equal.
    apply map_ext_in. intros path Ip.
    rewrite check_disk_usage_spec.
    + simpl. now rewrite app_nil_r.
    + intros p e [<- | []]. now apply H.
Qed.

Lemma disk_failures_are_isolated_witness :
  exists alerts,
    result (check_disk_usage Scenarios.two_paths 90 setup_logging
              Scenarios.missing_path) = Returns alerts /\
    alerts = [("/"%string, 95)].
Proof.
  destruct (disk_failures_are_isolated Scenarios.two_paths 90 setup_logging
              Scenarios.missing_path) as (alerts & R & E & _).
  - intros path e [<- | [<- | []]]; simpl; [discriminate |].
    now intros [= <-].
  - exists alerts. split; [exact R | exact E].
Defined.

(** C7.  A failed read makes the metric absent and raises no alert.  The
    failure of the processor read and of the memory read is logged at
    ERROR level; the failure of a disk read is logged at INFO level. *)
Theorem read_failure_log_levels
    (T : Q) (w : World) (path : string) (e : exn) :
  is_Exception e = true ->
  (psutil_cpu_percent w = Raises e ->
   check_cpu_usage T setup_logging w
   = (Returns (None, false), [mkRecord ERROR (MsgCpuReadFailed e) false])) /\
  (psutil_virtual_memory_percent w = Raises e ->
   check_memory_usage T setup_logging w
   = (Returns (None, false), [mkRecord ERROR (MsgMemReadFailed e) false])) /\
  (psutil_disk_usage_percent w path = Raises e ->
   check_disk_usage [path] T setup_logging w
   = (Returns [], [mkRecord INFO (MsgDiskError path e) false])).
Proof.
  intros E. repeat split; intros H.
  - unfold check_cpu_usage, call. rewrite H. simpl. now rewrite E.
  - unfold check_memory_usage, call. rewrite H. simpl. now rewrite E.
  - unfold check_disk_usage, check_disk_usage_from, disk_body, call.
    rewrite H. simpl. now rewrite E.
Qed.

Lemma read_failure_log_levels_witness :
  check_cpu_usage 80 setup_logging Scenarios.unreadable
  = (Returns (None, false),
     [mkRecord ERROR (MsgCpuReadFailed (OtherException "OSError")) false]) /\
  check_memory_usage 80 setup_logging Scenarios.unreadable
  = (Returns (None, false),
     [mkRecord ERROR (MsgMemReadFailed (OtherException "OSError")) false]) /\
  check_disk_usage ["/"%string] 90 setup_logging Scenarios.unreadable
  = (Returns [],
     [mkRecord INFO (MsgDiskError "/" (OtherException "OSError")) false]).
Proof.
  destruct (@read_failure_log_levels 80 Scenarios.unreadable "/"%string
              (OtherException "OSError") eq_refl) as (C & Me & _).
  destruct (@read_failure_log_levels 90 Scenarios.unreadable "/"%string
              (OtherException "OSError") eq_refl) as (_ & _ & D).
  split; [exact (C eq_refl) |]. split; [exact (Me eq_refl) | exact (D eq_refl)].
Defined.

(** *** Claims about the process scan *)

Lemma count_processes_logged logger w r :
  In r (logged (count_processes logger w)) ->
  exists e, msg r = MsgProcCountFailed e.
Proof.
  unfold count_processes, call.
  destruct (psutil_pids w) as [pids | e]; simpl; [tauto |].
  destruct (is_Exception e); simpl; [| tauto].
  rewrite !app_nil_r. unfold emit. destruct (_ <=? _)%Z; simpl; [| tauto].
  intros [<- | []]. now exists e.
Qed.

Lemma count_processes_returns logger w :
  (forall e, psutil_pids w = Raises e -> is_Exception e = true) ->
  exists c, result (count_processes logger w) = Returns c.
Proof.
  intros H. unfold count_processes, call.
  destruct (psutil_pids w) as [pids | e]; simpl; [eauto |].
  rewrite (H e eq_refl). simpl. eauto.
Qed.

Lemma process_count_alerts_logged c t logger r :
  In r (logged (process_count_alerts c t logger)) ->
  (exists n, msg r = MsgHighProcCount n t) \/
  (exists n, msg r = MsgTotalProcs n).
Proof.
  destruct c as [n |]; simpl; [| tauto].
  unfold emit. destruct (n >? t)%Z; simpl; rewrite app_nil_r;
    destruct (_ <=? _)%Z; simpl; try tauto; intros [<- | []]; simpl;
    [left | right]; now exists n.
Qed.

Lemma process_count_alerts_returns c t logger :
  exists a, result (process_count_alerts c t logger) = Returns a.
Proof.
  destruct c as [n |]; simpl; [| eauto]. destruct (n >? t)%Z; simpl; eauto.
Qed.

Lemma measure_high_cpu_logged T logger w r :
  In r (logged (measure_high_cpu T logger w)) ->
  exists pid e, msg r = MsgProcCheckError pid e.
Proof.
  unfold measure_high_cpu. rewrite logged_bind, first_pass_logs_nothing.
  cbn [app]. destruct (result (first_pass _ _)) as [procs | x]; [| intros []].
  rewrite logged_bind. unfold call. cbn [logged result fst snd app].
  destruct (time_sleep_sample w); [| intros []].
  intros I. apply second_pass_logged in I.
  destruct I as (pid & name & e & _ & _ & _ & ->). now exists pid, e.
Qed.

(** C1.  Whenever the high-usage list is not empty, the ranking is not
    reported: [sorted] asks every entry for the key ["cpu_percent"], the
    entries store the percentage under ["cpu"], so
    [check_running_processes] raises [KeyError] after the header line and
    no line of the ranking is logged. *)
Theorem ranking_raises_key_error
    (T : Q) (ct : Z) (logger : Logger) (w : World) (high : list dict) :
  (forall e, psutil_pids w = Raises e -> is_Exception e = true) ->
  result (measure_high_cpu T logger w) = Returns high ->
  high <> [] ->
  result (check_running_processes T ct logger w)
  = Raises (KeyError "cpu_percent") /\
  forall r pid name cpu mem,
    In r (logged (check_running_processes T ct logger w)) ->
    msg r <> MsgHighCpuProc pid name cpu mem.
Proof.
  intros P H N.
  pose proof (report_high_cpu_raises logger N
                (fun s => @measure_high_cpu_snapshots T logger w high s H))
    as R.
  destruct (@count_processes_returns logger w P) as (c & C).
  destruct (process_count_alerts_returns c ct logger) as (a & A).
  unfold check_running_processes. split.
  - rewrite result_bind, C, result_bind, A, result_bind, H, result_bind, R.
    reflexivity.
  - intros r pid name cpu mem.
    rewrite logged_bind, C, logged_bind, A, logged_bind, H, logged_bind, R.
    simpl. rewrite app_nil_r. intros I.
    repeat (apply in_app_or in I; destruct I as [I | I]).
    + apply count_processes_logged in I. destruct I as (e & ->). discriminate.
    + apply process_count_alerts_logged in I.
      destruct I as [(n & ->) | (n & ->)]; discriminate.
    + apply measure_high_cpu_logged in I.
      destruct I as (p & e & ->). discriminate.
    + unfold emit in I. destruct (_ <=? _)%Z; [| destruct I].
      destruct I as [<- | []]. discriminate.
Qed.

Lemma ranking_raises_key_error_witness :
  result (check_running_processes 20 500 setup_logging Scenarios.busy)
  = Raises (KeyError "cpu_percent").
Proof.
  refine (proj1 (@ranking_raises_key_error 20 500 setup_logging
                   Scenarios.busy [snapshot 42 "stress" 50 1] _ _ _)).
  - intros e. discriminate.
  - reflexivity.
  - discriminate.
Defined.

(** C5.  Let [procs] be the registry the first pass built.
    - Every entry of the high-usage list is the snapshot of a pid of the
      registry, whose counter was initialised in the first pass and whose
      three queries of the second pass returned; so the list is no longer
      than the registry, which is no longer than the process table.
    - When no query is interrupted by Ctrl-C the second pass returns:
      no failure of a query raises.
    - A pid whose query fails with NoSuchProcess, ZombieProcess or
      AccessDenied has no snapshot and no log line, and
      [check_running_processes] behaves, result and log, as if the
      process table never had that pid. *)
Theorem snapshots_need_both_phases
    (T : Q) (ct : Z) (logger : Logger) (w : World)
    (procs : list (Z * string)) :
  result (first_pass [] (psutil_process_iter w)) = Returns procs ->
  (forall high,
     result (second_pass [] procs T logger w) = Returns high ->
     (List.length high <= List.length procs)%nat /\
     (List.length procs <= List.length (psutil_process_iter w))%nat /\
     forall s, In s high ->
       exists pid name cpu mem proc v,
         s = snapshot pid name cpu mem /\
         In (pid, name) procs /\
         In proc (psutil_process_iter w) /\ info_pid proc = pid /\
         cpu_percent_first proc = Returns v /\
         query w pid = Returns (Some cpu, mem)) /\
  ((forall pid name e, In (pid, name) procs -> query w pid = Raises e ->
      is_Exception e = true) ->
   exists high, result (second_pass [] procs T logger w) = Returns high) /\
  (forall pid e,
     query w pid = Raises e -> is_process_gone e = true ->
     (forall high name cpu mem,
        result (second_pass [] procs T logger w) = Returns high ->
        ~ In (snapshot pid name cpu mem) high) /\
     (forall r e',
        In r (logged (second_pass [] procs T logger w)) ->
        msg r <> MsgProcCheckError pid e') /\
     check_running_processes T ct logger w
     = check_running_processes T ct logger
         (with_process_iter w
            (filter (other_proc pid) (psutil_process_iter w)))).
Proof.
  intros F. destruct (first_pass_registry _ _ F) as [L P].
  split; [| split].
  - intros high S. apply second_pass_result in S. simpl in S. subst high.
    split; [apply length_snapshots |]. split; [simpl in L; lia |].
    intros s I. apply in_flat_map in I. destruct I as ([pid name] & Ip & I).
    apply in_snapshot_of in I. destruct I as (cpu & mem & -> & Q & _).
    destruct (P pid name Ip) as [[] | (proc & v & ? & ? & ?)].
    exists pid, name, cpu, mem, proc, v. simpl in *. auto 6.
  - intros H. rewrite (second_pass_spec T logger w procs [] H). simpl. eauto.
  - intros pid e Q G. split; [| split].
    + intros high name cpu mem S I.
      apply second_pass_result in S. simpl in S. subst high.
      apply in_flat_map in I. destruct I as (item & _ & I).
      apply in_snapshot_of in I. destruct I as (c & m & E & Q' & _).
      injection E as E _. rewrite <- E in Q'. congruence.
    + intros r e' I E. apply second_pass_logged in I.
      destruct I as (p & n & x & _ & Q' & G' & ->). simpl in E.
      injection E as -> ->. congruence.
    + unfold check_running_processes.
      rewrite (measure_without T logger w pid F) by eauto. reflexivity.
Qed.

Lemma snapshots_need_both_phases_witness :
  (exists high,
     result (second_pass [] [(1%Z, "init"%string); (2%Z, "sshd"%string);
                             (3%Z, ""%string)]
               20 setup_logging Scenarios.vanishing) = Returns high) /\
  check_running_processes 20 500 setup_logging Scenarios.vanishing
  = check_running_processes 20 500 setup_logging
      (with_process_iter Scenarios.vanishing
         [mkProc 1 (Some "init"%string) (Returns 0); mkProc 3 None (Returns 0)]).
Proof.
  destruct (@snapshots_need_both_phases 20 500 setup_logging
              Scenarios.vanishing
              [(1%Z, "init"%string); (2%Z, "sshd"%string); (3%Z, ""%string)]
              eq_refl) as (_ & B & C).
  split.
  - apply B. intros pid name e [[= <- <-] | [[= <- <-] | [[= <- <-] | []]]];
      simpl; try discriminate. now intros [= <-].
  - exact (proj2 (proj2 (C 2%Z NoSuchProcess eq_refl eq_refl))).
Defined.

(** The run of scenario B: pid 2 is dropped and the check returns. *)
Example vanished_process_cycle :
  check_running_processes 20 500 setup_logging Scenarios.vanishing
  = (Returns (Some 3%Z, [], []),
     [mkRecord INFO (MsgTotalProcs 3) false;
      mkRecord INFO MsgNoHighCpuProcs false]).
Proof. reflexivity. Qed.

Lemma measure_high_cpu_with_pids T logger w o :
  measure_high_cpu T logger (with_pids w o) = measure_high_cpu T logger w.
Proof.
  unfold measure_high_cpu.
  cbn [with_pids psutil_process_iter time_sleep_sample].
  destruct (first_pass [] (psutil_process_iter w)) as [[procs | x] l];
    [| reflexivity].
  unfold bind, call. destruct (time_sleep_sample w); [| reflexivity].
  now rewrite (@second_pass_ext T logger (with_pids w o) w procs []).
Qed.

(** C9.  When [psutil.pids()] fails with an ordinary exception,
    [check_running_processes] logs the failure, takes the count as [None],
    raises no process-count alert and then runs the two passes and the
    report exactly as it does otherwise: the measurement does not depend
    on what [psutil.pids()] answered. *)
Theorem count_failure_keeps_scan
    (T : Q) (ct : Z) (logger : Logger) (w : World) (e : exn) :
  psutil_pids w = Raises e ->
  is_Exception e = true ->
  check_running_processes T ct logger w
  = (error logger (MsgProcCountFailed e) ;;
     high_cpu_processes <- measure_high_cpu T logger w ;;
     _ <- report_high_cpu high_cpu_processes logger ;;
     ret (None, high_cpu_processes, [])) /\
  (forall o,
     measure_high_cpu T logger (with_pids w o) = measure_high_cpu T logger w) /\
  (forall process_count high alerts,
     result (check_running_processes T ct logger w)
     = Returns (process_count, high, alerts) ->
     process_count = None /\ alerts = [] /\
     result (measure_high_cpu T logger w) = Returns high).
Proof.
  intros P E.
  assert (Eq : check_running_processes T ct logger w
               = (error logger (MsgProcCountFailed e) ;;
                  high_cpu_processes <- measure_high_cpu T logger w ;;
                  _ <- report_high_cpu high_cpu_processes logger ;;
                  ret (None, high_cpu_processes, []))).
  { unfold check_running_processes, count_processes, call.
    rewrite P. simpl try_except. rewrite E. simpl.
    destruct (measure_high_cpu T logger w) as [[h | x] l]; simpl;
      [| now rewrite app_nil_r].
    destruct (report_high_cpu h logger) as [[[] | x] l']; simpl;
      now rewrite ?app_nil_r. }
  split; [exact Eq |]. split; [intros o; apply measure_high_cpu_with_pids |].
  intros pc high alerts. rewrite Eq, result_bind. simpl result at 2.
  cbv iota. rewrite result_bind.
  destruct (result (measure_high_cpu T logger w)) as [h | x]; [| discriminate].
  rewrite result_bind.
  destruct (result (report_high_cpu h logger)) as [[] | x]; [| discriminate].
  simpl. intros [= <- <- <-]. auto.
Qed.

Lemma count_failure_keeps_scan_witness :
  check_running_processes 20 500 setup_logging Scenarios.unreadable
  = (Returns (None, [], []),
     [mkRecord ERROR (MsgProcCountFailed (OtherException "OSError")) false;
      mkRecord INFO MsgNoHighCpuProcs false]).
Proof.
  rewrite (proj1 (@count_failure_keeps_scan 20 500 setup_logging
                    Scenarios.unreadable (OtherException "OSError")
                    eq_refl eq_refl)).
  reflexivity.
Defined.

(** *** The main loop *)

Section Loop.

Variables (args : Args) (logger : Logger) (worlds : nat -> World).

Lemma loop_returns n : forall i,
  (forall j, (j < n)%nat ->
     exists b, result (cycle args logger (worlds (i + j))) = Returns b) ->
  result (loop n args logger worlds i) = Returns tt.
Proof.
  induction n as [| n IH]; intros i H; [reflexivity |].
  cbn [loop]. rewrite result_bind.
  destruct (H 0%nat ltac:(lia)) as (b & B). rewrite Nat.add_0_r in B.
  rewrite B. apply IH. intros j Hj.
  destruct (H (S j) ltac:(lia)) as (b' & B').
  exists b'. now rewrite Nat.add_succ_comm.
Qed.

Lemma loop_stops k : forall i n e,
  (forall j, (j < k)%nat ->
     exists b, result (cycle args logger (worlds (i + j))) = Returns b) ->
  result (cycle args logger (worlds (i + k))) = Raises e ->
  (k < n)%nat ->
  loop n args logger worlds i = loop (S k) args logger worlds i /\
  result (loop (S k) args logger worlds i) = Raises e.
Proof.
  induction k as [| k IH]; intros i n e H R L.
  - destruct n as [| n]; [lia |]. rewrite Nat.add_0_r in R.
    cbn [loop]. rewrite !result_bind, R.
    destruct (cycle args logger (worlds i)) as [[b | x] l]; [discriminate |].
    split; reflexivity.
  - destruct n as [| n]; [lia |].
    destruct (H 0%nat ltac:(lia)) as (b & B). rewrite Nat.add_0_r in B.
    destruct (IH (S i) n e) as [E R'].
    + intros j Hj. destruct (H (S j) ltac:(lia)) as (b' & B').
      exists b'. now rewrite Nat.add_succ_comm.
    + now rewrite Nat.add_succ_comm.
    + lia.
    + change (loop (S n) args logger worlds i)
        with (_ <- cycle args logger (worlds i) ;;
              loop n args logger worlds (S i)).
      change (loop (S (S k)) args logger worlds i)
        with (_ <- cycle args logger (worlds i) ;;
              loop (S k) args logger worlds (S i)).
      rewrite E. split; [reflexivity |]. now rewrite result_bind, B.
Qed.

Lemma loop_raises n : forall i e,
  result (loop n args logger worlds i) = Raises e ->
  exists k, (k < n)%nat /\
    (forall j, (j < k)%nat ->
       exists b, result (cycle args logger (worlds (i + j))) = Returns b) /\
    result (cycle args logger (worlds (i + k))) = Raises e.
Proof.
  induction n as [| n IH]; intros i e; [discriminate |].
  cbn [loop]. rewrite result_bind.
  destruct (result (cycle args logger (worlds i))) as [b | x] eqn:B.
  - intros R. destruct (IH _ _ R) as (k & L & H & R').
    exists (S k). split; [lia |]. split.
    + intros [| j] Hj.
      * exists b. now rewrite Nat.add_0_r.
      * destruct (H j ltac:(lia)) as (b' & B').
        exists b'. now rewrite <- Nat.add_succ_comm.
    + now rewrite <- Nat.add_succ_comm.
  - intros [= ->]. exists 0%nat. split; [lia |]. split.
    + intros j Hj. lia.
    + now rewrite Nat.add_0_r.
Qed.

End Loop.

Lemma main_looping n args worlds :
  result (loop n args setup_logging worlds 0) = Returns tt ->
  result (main n args worlds) = Returns Looping.
Proof.
  intros H. unfold main.
  destruct (loop n args setup_logging worlds 0) as [[[] | e] l];
    [reflexivity | discriminate].
Qed.

Lemma main_stopped n args worlds e :
  result (loop n args setup_logging worlds 0) = Raises e ->
  main n args worlds
  = (Returns Returned,
     mkRecord INFO MsgStarting false
       :: logged (loop n args setup_logging worlds 0) ++ [last_line e]).
Proof.
  intros H. unfold main.
  destruct (loop n args setup_logging worlds 0) as [[[] | x] l];
    [discriminate |].
  simpl in H. injection H as ->. now destruct e.
Qed.

Lemma main_never_raises n args worlds e :
  result (main n args worlds) <> Raises e.
Proof.
  destruct (result (loop n args setup_logging worlds 0)) as [[] | x] eqn:R.
  - now rewrite (main_looping _ _ _ R).
  - now rewrite (main_stopped _ _ _ R).
Qed.

Lemma main_stops args worlds k e n :
  cycles_complete args worlds k ->
  result (cycle args setup_logging (worlds k)) = Raises e ->
  (k < n)%nat ->
  main n args worlds = main (S k) args worlds /\
  result (main n args worlds) = Returns Returned /\
  exists l, logged (main n args worlds) = l ++ [last_line e].
Proof.
  intros C R L.
  destruct (@loop_stops args setup_logging worlds k 0 n e C R L) as [E Rk].
  assert (M : main n args worlds = main (S k) args worlds)
    by (unfold main; now rewrite E).
  split; [exact M |]. rewrite M, (main_stopped _ _ _ Rk).
  split; [reflexivity |]. simpl.
  now exists (mkRecord INFO MsgStarting false
                :: logged (loop (S k) args setup_logging worlds 0)).
Qed.

(** C2 as the code has it.  An exception that is not Ctrl-C and leaves a
    cycle is caught by the handler around the whole loop: [main] logs it
    with its traceback at ERROR level as its last line and returns.  No
    later cycle begins: however long the run is watched, it is the run
    that ends with that cycle. *)
Theorem unexpected_error_ends_the_loop
    (args : Args) (worlds : nat -> World) (k : nat) (e : exn) :
  cycles_complete args worlds k ->
  result (cycle args setup_logging (worlds k)) = Raises e ->
  is_Exception e = true ->
  forall n, (k < n)%nat ->
    main n args worlds = main (S k) args worlds /\
    result (main n args worlds) = Returns Returned /\
    exists l,
      logged (main n args worlds)
      = l ++ [mkRecord ERROR (MsgUnhandled e) true].
Proof.
  intros C R E n L.
  destruct (@main_stops args worlds k e n C R L) as (M & S & l & Hl).
  split; [exact M |]. split; [exact S |]. exists l. rewrite Hl.
  unfold last_line. now destruct e.
Qed.

Lemma unexpected_error_ends_the_loop_witness :
  main 7 Scenarios.default_args (Scenarios.always Scenarios.broken)
  = main 1 Scenarios.default_args (Scenarios.always Scenarios.broken) /\
  result (main 7 Scenarios.default_args (Scenarios.always Scenarios.broken))
  = Returns Returned.
Proof.
  destruct (@unexpected_error_ends_the_loop Scenarios.default_args
              (Scenarios.always Scenarios.broken) 0
              (OtherException "OSError")) with (n := 7%nat)
    as (M & S & _).
  - intros j Hj. lia.
  - reflexivity.
  - reflexivity.
  - lia.
  - split; [exact M | exact S].
Defined.

(** C2, counterexample.  A process above the per-process threshold makes
    the first cycle raise [KeyError], and so does an I/O error of the
    first pass; each time [main], watched for five cycles, has returned
    after the first one and has begun no second cycle. *)
Lemma loop_ends_on_unexpected_error :
  (result (cycle Scenarios.default_args setup_logging Scenarios.busy)
   = Raises (KeyError "cpu_percent") /\
   is_Exception (KeyError "cpu_percent") = true /\
   result (main 5 Scenarios.default_args (Scenarios.always Scenarios.busy))
   = Returns Returned /\
   cycles_begun
     (logged (main 5 Scenarios.default_args (Scenarios.always Scenarios.busy)))
   = 1%nat) /\
  (result (cycle Scenarios.default_args setup_logging Scenarios.broken)
   = Raises (OtherException "OSError") /\
   is_Exception (OtherException "OSError") = true /\
   result (main 5 Scenarios.default_args (Scenarios.always Scenarios.broken))
   = Returns Returned /\
   cycles_begun
     (logged (main 5 Scenarios.default_args
                (Scenarios.always Scenarios.broken)))
   = 1%nat).
Proof. repeat split; reflexivity. Qed.

(** C8 as the code has it.  As long as every cycle runs to its end [main]
    stays in the loop.  It leaves the loop exactly when a cycle raises,
    and then it returns, so the exit status is zero, in both of its two
    terminal states: after Ctrl-C the last line is "Monitoring stopped by
    user." at INFO level; after any other exception the last line is the
    exception with its traceback at ERROR level. *)
Theorem main_loop_terminal_states (args : Args) (worlds : nat -> World) :
  (forall n, cycles_complete args worlds n ->
     result (main n args worlds) = Returns Looping) /\
  (forall n,
     result (main n args worlds) = Returns Returned <->
     exists k e, (k < n)%nat /\ cycles_complete args worlds k /\
       result (cycle args setup_logging (worlds k)) = Raises e) /\
  (forall k e n,
     cycles_complete args worlds k ->
     result (cycle args setup_logging (worlds k)) = Raises e ->
     (k < n)%nat ->
     exit_status (result (main n args worlds)) = Some 0%Z /\
     exists l, logged (main n args worlds) = l ++ [last_line e]) /\
  (forall n e, result (main n args worlds) <> Raises e).
Proof.
  split; [| split; [| split]].
  - intros n C. apply main_looping. apply loop_returns. exact C.
  - intros n. split.
    + intros R.
      destruct (result (loop n args setup_logging worlds 0)) as [[] | e] eqn:L.
      * rewrite (main_looping _ _ _ L) in R. discriminate.
      * apply loop_raises in L. destruct L as (k & Hk & C & Rk).
        exists k, e. auto.
    + intros (k & e & Hk & C & Rk).
      now destruct (@main_stops args worlds k e n C Rk Hk) as (_ & S & _).
  - intros k e n C Rk Hk.
    destruct (@main_stops args worlds k e n C Rk Hk) as (_ & S & l & Hl).
    rewrite S. split; [reflexivity | now exists l].
  - intros n e. apply main_never_raises.
Qed.

Lemma main_loop_terminal_states_witness :
  result (main 2 Scenarios.default_args Scenarios.two_cycles_then_ctrl_c)
  = Returns Looping /\
  exit_status
    (result (main 9 Scenarios.default_args Scenarios.two_cycles_then_ctrl_c))
  = Some 0%Z /\
  exists l,
    logged (main 9 Scenarios.default_args Scenarios.two_cycles_then_ctrl_c)
    = l ++ [mkRecord INFO MsgStopped false].
Proof.
  destruct (main_loop_terminal_states Scenarios.default_args
              Scenarios.two_cycles_then_ctrl_c) as (A & _ & B & _).
  assert (C : cycles_complete Scenarios.default_args
                Scenarios.two_cycles_then_ctrl_c 2).
  { intros [| [| j]] Hj; [now exists false | now exists false | lia]. }
  split; [exact (A 2%nat C) |].
  exact (B 2%nat KeyboardInterrupt 9%nat C eq_refl ltac:(lia)).
Defined.

(** C8, counterexample.  No Ctrl-C arrives, the first read of a process
    counter fails with an I/O error, and [main] returns all the same:
    with exit status zero and without the shutdown line. *)
Lemma monitor_ends_without_cancellation :
  main 3 Scenarios.default_args (Scenarios.always Scenarios.broken)
  = (Returns Returned,
     [mkRecord INFO MsgStarting false;
      mkRecord INFO MsgNewCycle false;
      mkRecord INFO (MsgCpu 50) false;
      mkRecord INFO (MsgMem 40) false;
      mkRecord INFO (MsgDisk "/" 30) false;
      mkRecord INFO (MsgTotalProcs 2) false;
      mkRecord ERROR (MsgUnhandled (OtherException "OSError")) true]) /\
  exit_status
    (result (main 3 Scenarios.default_args (Scenarios.always Scenarios.broken)))
  = Some 0%Z.
Proof. split; reflexivity. Qed.

(** *** The alert of a cycle *)

Lemma check_running_processes_needs_empty_list T ct logger w high v :
  result (measure_high_cpu T logger w) = Returns high ->
  result (check_running_processes T ct logger w) = Returns v ->
  high = [].
Proof.
  intros H. unfold check_running_processes. rewrite result_bind.
  destruct (result (count_processes logger w)) as [c |]; [| discriminate].
  rewrite result_bind.
  destruct (result (process_count_alerts c ct logger)) as [a |];
    [| discriminate].
  rewrite result_bind, H, result_bind.
  destruct high as [| s rest]; [reflexivity |].
  rewrite (@report_high_cpu_raises (s :: rest) logger); [discriminate | |].
  - discriminate.
  - intros x I.
    exact (@measure_high_cpu_snapshots T logger w (s :: rest) x H I).
Qed.

(** What [cycle] returns, when it returns: the disjunction of line 201. *)
Lemma cycle_alerts_is_the_disjunction args logger w b :
  result (cycle args logger w) = Returns b ->
  exists c m d r,
    result (check_cpu_usage (cpu_threshold args) logger w) = Returns c /\
    result (check_memory_usage (memory_threshold args) logger w) = Returns m /\
    result (check_disk_usage (disk_paths args) (disk_threshold args) logger w)
    = Returns d /\
    result (check_running_processes (process_cpu_threshold args)
              (process_count_threshold args) logger w) = Returns r /\
    b = snd c || snd m || truthy d || truthy (snd (fst r)) || truthy (snd r).
Proof.
  unfold cycle. rewrite result_bind. simpl result at 2. cbv iota.
  rewrite result_bind.
  destruct (result (check_cpu_usage _ _ _)) as [c |]; [| discriminate].
  rewrite result_bind.
  destruct (result (check_memory_usage _ _ _)) as [m |]; [| discriminate].
  rewrite result_bind.
  destruct (result (check_disk_usage _ _ _ _)) as [d |]; [| discriminate].
  rewrite result_bind.
  destruct (result (check_running_processes _ _ _ _)) as [r |];
    [| discriminate].
  intros H. exists c, m, d, r. repeat split.
  cbv zeta in H.
  match type of H with
  | context [if ?X then _ else _] => remember X as x eqn:EX
  end.
  unfold call in H.
  destruct x; simpl in H; destruct (time_sleep_interval w);
    try discriminate; now injection H as <-.
Qed.

(** C3.  The aggregation of line 201 is never reached with a high-usage
    list that is not empty: in a cycle whose second pass finds a process
    above the threshold, [cycle] does not return, so no [cycle_alerts] is
    computed from that list; a cycle that does return had an empty
    list. *)
Theorem high_cpu_cycle_yields_no_alert
    (args : Args) (logger : Logger) (w : World) (high : list dict) :
  result (measure_high_cpu (process_cpu_threshold args) logger w)
  = Returns high ->
  high <> [] ->
  forall cycle_alerts, result (cycle args logger w) <> Returns cycle_alerts.
Proof.
  intros H N b R.
  destruct (cycle_alerts_is_the_disjunction _ _ _ R)
    as (c & m & d & r & _ & _ & _ & P & _).
  apply N. exact (check_running_processes_needs_empty_list _ _ _ _ H P).
Qed.

Lemma high_cpu_cycle_yields_no_alert_witness :
  result (cycle Scenarios.default_args setup_logging Scenarios.busy)
  <> Returns true.
Proof.
  apply (@high_cpu_cycle_yields_no_alert Scenarios.default_args setup_logging
           Scenarios.busy [snapshot 42 "stress" 50 1]).
  - reflexivity.
  - discriminate.
Defined.

(** Scenario A: the disk alert and the process-count alert make
    [cycle_alerts] true. *)
Example scenario_a_cycle :
  cycle Scenarios.default_args setup_logging Scenarios.scenario_a
  = (Returns true,
     [mkRecord INFO MsgNewCycle false;
      mkRecord INFO (MsgCpu 50) false;
      mkRecord INFO (MsgMem 40) false;
      mkRecord WARNING (MsgHighDisk "/" 95 90) false;
      mkRecord WARNING (MsgHighProcCount 600 500) false;
      mkRecord INFO MsgNoHighCpuProcs false;
      mkRecord WARNING MsgAlertsRaised false;
      mkRecord INFO MsgCycleCompleted false]).
Proof. reflexivity. Qed.

(** The whole run of [main] on the machine with the busy process: the
    header of the ranking is the last line of the cycle, and the line
    "One or more alerts raised this cycle." never appears. *)
Example busy_machine_run :
  main 4 Scenarios.default_args (Scenarios.always Scenarios.busy)
  = (Returns Returned,
     [mkRecord INFO MsgStarting false;
      mkRecord INFO MsgNewCycle false;
      mkRecord INFO (MsgCpu 50) false;
      mkRecord INFO (MsgMem 50) false;
      mkRecord INFO (MsgDisk "/" 50) false;
      mkRecord INFO (MsgTotalProcs 2) false;
      mkRecord WARNING MsgHighCpuProcsHeader false;
      mkRecord ERROR (MsgUnhandled (KeyError "cpu_percent")) true]).
Proof. reflexivity. Qed.

Lemma truthy_true A (l : list A) : truthy l = true <-> l <> [].
Proof. destruct l; simpl; split; congruence. Qed.

(** A cycle that returns had an empty high-usage list, and its
    [cycle_alerts] is true exactly when one of the other alerts fired. *)
Lemma completed_cycle_alert_iff args logger w b :
  result (cycle args logger w) = Returns b ->
  exists c m d r,
    result (check_cpu_usage (cpu_threshold args) logger w) = Returns c /\
    result (check_memory_usage (memory_threshold args) logger w) = Returns m /\
    result (check_disk_usage (disk_paths args) (disk_threshold args) logger w)
    = Returns d /\
    result (check_running_processes (process_cpu_threshold args)
              (process_count_threshold args) logger w) = Returns r /\
    (b = true <->
     snd c = true \/ snd m = true \/ d <> [] \/ snd (fst r) <> [] \/
     snd r <> []).
Proof.
  intros R.
  destruct (cycle_alerts_is_the_disjunction _ _ _ R)
    as (c & m & d & r & C & Me & D & P & ->).
  exists c, m, d, r. repeat (split; [assumption |]).
  rewrite !orb_true_iff, !truthy_true. tauto.
Qed.

(** *** The uptime check *)

Import AppUptime.

(** C10 as the code has it.  [check_app_status] returns ("UP", code)
    exactly when a response came whose status code is at least 200 and
    below 300, ("DOWN", code) for a response with any other code, and
    ("DOWN", None) when [requests.get] raises a [RequestException].  An
    exception of another class is not caught: it leaves the function. *)
Theorem check_app_status_cases
    (requests_get : string -> Z -> outcome Response)
    (url : string) (timeout : Z) :
  (forall response,
     requests_get url timeout = Returns response ->
     ((200 <= status_code response < 300)%Z ->
      check_app_status requests_get url timeout
      = Returns ("UP"%string, Some (status_code response))) /\
     (~ (200 <= status_code response < 300)%Z ->
      check_app_status requests_get url timeout
      = Returns ("DOWN"%string, Some (status_code response)))) /\
  (forall e,
     requests_get url timeout = Raises e ->
     (is_RequestException e = true ->
      check_app_status requests_get url timeout
      = Returns ("DOWN"%string, None)) /\
     (is_RequestException e = false ->
      check_app_status requests_get url timeout = Raises e)) /\
  (forall code,
     check_app_status requests_get url timeout = Returns ("UP"%string, code)
     <-> exists response,
           requests_get url timeout = Returns response /\
           code = Some (status_code response) /\
           (200 <= status_code response < 300)%Z).
Proof.
  unfold check_app_status. split; [| split].
  - intros response ->. split; intros H.
    + replace ((200 <=? status_code response)
               && (status_code response <? 300))%Z with true; [reflexivity |].
      symmetry. apply andb_true_iff. split; [apply Z.leb_le | apply Z.ltb_lt];
        lia.
    + replace ((200 <=? status_code response)
               && (status_code response <? 300))%Z with false; [reflexivity |].
      symmetry. apply not_true_iff_false. intros B. apply H.
      apply andb_true_iff in B. destruct B as [B1 B2].
      apply Z.leb_le in B1. apply Z.ltb_lt in B2. lia.
  - intros e ->. split; now intros ->.
  - intros code. destruct (requests_get url timeout) as [response | e].
    + destruct ((200 <=? status_code response)
                && (status_code response <? 300))%Z eqn:B.
      * apply andb_true_iff in B. destruct B as [B1 B2].
        apply Z.leb_le in B1. apply Z.ltb_lt in B2. split.
        -- intros [= <-]. exists response. auto.
        -- intros (r & [= <-] & -> & _). reflexivity.
      * split; [discriminate |]. intros (r & [= <-] & _ & L).
        apply not_true_iff_false in B. exfalso. apply B.
        apply andb_true_iff. split; [apply Z.leb_le | apply Z.ltb_lt]; lia.
    + split.
      * destruct (is_RequestException e); discriminate.
      * intros (r & [=] & _).
Qed.

Lemma check_app_status_cases_witness :
  check_app_status Scenarios.strict_timeout "http://localhost/" 10
  = Returns ("UP"%string, Some 200%Z) /\
  check_app_status Scenarios.strict_timeout "http://localhost/" 0
  = Raises (OtherException "ValueError").
Proof.
  destruct (check_app_status_cases Scenarios.strict_timeout
              "http://localhost/" 10) as (A & _).
  destruct (check_app_status_cases Scenarios.strict_timeout
              "http://localhost/" 0) as (_ & B & _).
  split.
  - apply (A (mkResponse 200) eq_refl). simpl. lia.
  - now apply (B (OtherException "ValueError") eq_refl).
Defined.

(** C10, counterexample.  With [--timeout 0] the call of [requests.get]
    raises a [ValueError], which is no [RequestException]:
    [check_app_status] raises. *)
Lemma check_app_status_raises :
  is_RequestException (OtherException "ValueError") = false /\
  check_app_status Scenarios.strict_timeout "http://localhost/" 0
  = Raises (OtherException "ValueError").
Proof. split; reflexivity. Qed.

(** ** The rest of the two programs: properties *)

(** *** Strings *)

Import More.

Lemma lstrip_head s :
  first_is_space (Str.lstrip s) = false.
Proof.
  induction s as [| c s IH]; [reflexivity |]. simpl.
  destruct (Str.isspace c) eqn:E; [exact IH | simpl; exact E].
Qed.

Lemma rstrip_keeps_head c s :
  Str.isspace c = false ->
  exists r, Str.rstrip (String c s) = String c r.
Proof.
  intros E. simpl. destruct (Str.rstrip s) as [| d r].
  - rewrite E. now exists EmptyString.
  - now exists (String d r).
Qed.

Lemma rstrip_last s :
  last_is_space (Str.rstrip s) = false.
Proof.
  induction s as [| c s IH]; [reflexivity |]. simpl.
  destruct (Str.rstrip s) as [| d r].
  - destruct (Str.isspace c) eqn:E; [reflexivity | simpl; exact E].
  - exact IH.
Qed.

Lemma strip_first s : first_is_space (Str.strip s) = false.
Proof.
  unfold Str.strip. pose proof (lstrip_head s) as H.
  destruct (Str.lstrip s) as [| c t]; [reflexivity |].
  simpl in H. destruct (@rstrip_keeps_head c t H) as (r & ->). exact H.
Qed.

Lemma strip_last s : last_is_space (Str.strip s) = false.
Proof. apply rstrip_last. Qed.

Lemma nonempty_true s : Str.nonempty s = true <-> s <> EmptyString.
Proof. destruct s; simpl; split; congruence. Qed.

Lemma lstrip_fix s : first_is_space s = false -> Str.lstrip s = s.
Proof. destruct s as [| c t]; simpl; [reflexivity | now intros ->]. Qed.

Lemma rstrip_fix s : last_is_space s = false -> Str.rstrip s = s.
Proof.
  induction s as [| c s IH]; [reflexivity |].
  destruct s as [| d t].
  - simpl. now intros ->.
  - intros H. change (last_is_space (String d t) = false) in H.
    change (Str.rstrip (String c (String d t)))
      with (match Str.rstrip (String d t) with
            | EmptyString =>
                if Str.isspace c then EmptyString else String c EmptyString
            | r => String c r
            end).
    now rewrite (IH H).
Qed.

Lemma strip_fix s :
  first_is_space s = false -> last_is_space s = false -> Str.strip s = s.
Proof.
  intros F L. unfold Str.strip. rewrite (@lstrip_fix s F). now apply rstrip_fix.
Qed.

Lemma contains_lstrip c s :
  Str.contains c (Str.lstrip s) = true -> Str.contains c s = true.
Proof.
  induction s as [| d s IH]; [trivial |]. simpl.
  destruct (Str.isspace d); [| trivial].
  intros H. rewrite (IH H). apply orb_true_r.
Qed.

Lemma contains_rstrip c s :
  Str.contains c (Str.rstrip s) = true -> Str.contains c s = true.
Proof.
  induction s as [| d s IH]; [trivial |]. simpl.
  destruct (Str.rstrip s) as [| x r].
  - destruct (Str.isspace d); simpl; [discriminate |].
    rewrite orb_false_r. now intros ->.
  - change (Str.contains c (String d (String x r)))
      with (Ascii.eqb d c || Str.contains c (String x r)).
    destruct (Ascii.eqb d c); [trivial |]. simpl orb. exact IH.
Qed.

Lemma contains_strip c s :
  Str.contains c (Str.strip s) = true -> Str.contains c s = true.
Proof. intros H. now apply contains_lstrip, contains_rstrip. Qed.

Lemma split_pieces sep s :
  Forall (fun piece => Str.contains sep piece = false) (Str.split sep s).
Proof.
  induction s as [| c s IH]; simpl.
  - now constructor.
  - destruct (Ascii.eqb c sep) eqn:E.
    + now constructor.
    + destruct (Str.split sep s) as [| piece pieces].
      * constructor; [simpl; now rewrite E | constructor].
      * inversion IH as [| ? ? P Ps]; subst.
        constructor; [simpl; now rewrite E, P | exact Ps].
Qed.

Lemma split_without sep s :
  Str.contains sep s = false -> Str.split sep s = [s].
Proof.
  induction s as [| c s IH]; [reflexivity |]. simpl.
  destruct (Ascii.eqb c sep); [discriminate |]. simpl.
  intros H. now rewrite (IH H).
Qed.

Lemma split_app sep piece rest :
  Str.contains sep piece = false ->
  Str.split sep (piece ++ String sep rest) = piece :: Str.split sep rest.
Proof.
  induction piece as [| c s IH]; simpl.
  - now rewrite Ascii.eqb_refl.
  - destruct (Ascii.eqb c sep); [discriminate |]. simpl.
    intros H. now rewrite (IH H).
Qed.

Lemma split_join sep l :
  l <> [] ->
  Forall (fun piece => Str.contains sep piece = false) l ->
  Str.split sep (Str.join sep l) = l.
Proof.
  induction l as [| piece rest IH]; [congruence |].
  intros _ F. inversion F as [| ? ? P Ps]; subst.
  destruct rest as [| piece' rest'].
  - simpl. now apply split_without.
  - change (Str.join sep (piece :: piece' :: rest'))
      with (piece ++ String sep (Str.join sep (piece' :: rest')))%string.
    rewrite (@split_app sep piece _ P). f_equal. apply IH; [discriminate | exact Ps].
Qed.

Lemma strip_trimmed s :
  Str.nonempty (Str.strip s) = true -> trimmed (Str.strip s).
Proof.
  intros N. split; [now apply nonempty_true |].
  split; [apply strip_first | apply strip_last].
Qed.

(** *** The option [--disk-paths] *)

(** X1.  Every path [main] takes from [--disk-paths] is non-empty, has no
    white space at either end and holds no comma. *)
Theorem parsed_disk_paths_are_clean (disk_paths p : string) :
  In p (SysMonSetup.parse_disk_paths disk_paths) ->
  trimmed p /\ Str.contains "," p = false.
Proof.
  unfold SysMonSetup.parse_disk_paths. intros I.
  apply in_map_iff in I. destruct I as (piece & <- & I).
  apply filter_In in I. destruct I as [I N].
  split; [now apply strip_trimmed |].
  apply not_true_iff_false. intros C. apply contains_strip in C.
  pose proof (split_pieces "," disk_paths) as F.
  rewrite Forall_forall in F. rewrite (F piece I) in C. discriminate.
Qed.

Lemma parsed_disk_paths_are_clean_witness :
  trimmed "/var" /\ Str.contains "," "/var" = false.
Proof.
  apply (@parsed_disk_paths_are_clean " / ,, /var ,"%string "/var"%string).
  simpl. right. now left.
Defined.

Lemma strip_clean_pieces l :
  Forall (fun p => trimmed p /\ Str.contains "," p = false) l ->
  map Str.strip (filter (fun p => Str.nonempty (Str.strip p)) l) = l.
Proof.
  induction 1 as [| q l [(N & Fi & La) C] F' IH]; [reflexivity |].
  simpl. rewrite (@strip_fix q Fi La).
  apply nonempty_true in N. rewrite N. simpl.
  rewrite (@strip_fix q Fi La). now rewrite IH.
Qed.

(** X2.  Joining clean paths with commas and handing the result to
    [--disk-paths] gives the same paths back, in the same order; so the
    option can name any list of clean paths, the empty one included. *)
Theorem disk_paths_round_trip (paths : list string) :
  Forall (fun p => trimmed p /\ Str.contains "," p = false) paths ->
  SysMonSetup.parse_disk_paths (Str.join "," paths) = paths.
Proof.
  intros F. unfold SysMonSetup.parse_disk_paths.
  destruct paths as [| p rest]; [reflexivity |].
  rewrite split_join.
  - now apply strip_clean_pieces.
  - discriminate.
  - apply Forall_impl with (2 := F). now intros q [_ C].
Qed.

Lemma disk_paths_round_trip_witness :
  SysMonSetup.parse_disk_paths (Str.join "," ["/"; "/var log"; "/home"]%string)
  = ["/"; "/var log"; "/home"]%string.
Proof.
  apply disk_paths_round_trip.
  repeat constructor; discriminate.
Defined.

(** *** The configuration file of the uptime check *)

Import Uptime.

(** X3.  [read_urls_from_config] raises [FileNotFoundError] exactly when
    the file is missing.  The URLs it returns are at most as many as the
    lines of the file; each is a line of the file that does not begin
    with ['#'], stripped, and is non-empty with no white space at either
    end. *)
Theorem config_urls_are_clean (fs : FileSystem) (file_path : string) :
  (fs file_path = None <->
   read_urls_from_config fs file_path = Raises FileNotFoundError) /\
  forall urls,
    read_urls_from_config fs file_path = Returns urls ->
    exists f,
      fs file_path = Some f /\
      (List.length urls <= List.length f)%nat /\
      forall url, In url urls ->
        trimmed url /\
        exists line, In line f /\ url = Str.strip line /\
                     Str.startswith line "#" = false.
Proof.
  unfold read_urls_from_config. split.
  - destruct (fs file_path); split; congruence.
  - intros urls. destruct (fs file_path) as [f |]; [| discriminate].
    intros [= <-]. exists f. split; [reflexivity |]. split.
    + rewrite length_map. apply filter_length_le.
    + intros url I. apply in_map_iff in I. destruct I as (line & <- & I).
      apply filter_In in I. destruct I as [I B].
      apply andb_true_iff in B. destruct B as [N S].
      split; [now apply strip_trimmed |].
      exists line. apply negb_true_iff in S. auto.
Qed.

Lemma config_urls_are_clean_witness :
  exists f,
    (fun path : string =>
       if String.eqb path "config.txt"
       then Some ["# servers"; " http://a/ "; ""; "http://b/"]%string
       else None) "config.txt"%string = Some f /\
    (List.length ["http://a/"; "http://b/"]%string <= List.length f)%nat.
Proof.
  destruct (proj2 (config_urls_are_clean
                     (fun path : string =>
                        if String.eqb path "config.txt"
                        then Some ["# servers"; " http://a/ "; "";
                                   "http://b/"]%string
                        else None) "config.txt"%string)
              ["http://a/"; "http://b/"]%string eq_refl)
    as (f & E & L & _).
  exists f. split; [exact E | exact L].
Defined.

(** X4.  Only a ['#'] in the first column makes a comment.  A line whose
    first character is white space and whose first other character is
    ['#'] is kept: its stripped text, which begins with ['#'], is
    returned as a URL. *)
Theorem indented_comment_is_returned
    (fs : FileSystem) (file_path : string) (f : list string)
    (line : string) :
  fs file_path = Some f ->
  In line f ->
  first_is_space line = true ->
  Str.startswith (Str.lstrip line) "#" = true ->
  exists urls,
    read_urls_from_config fs file_path = Returns urls /\
    In (Str.strip line) urls /\
    Str.startswith (Str.strip line) "#" = true.
Proof.
  intros E I F H. unfold read_urls_from_config. rewrite E.
  eexists. split; [reflexivity |].
  assert (S : exists r, Str.strip line = String "#" r).
  { unfold Str.strip. destruct (Str.lstrip line) as [| c t]; [discriminate |].
    simpl in H. apply Ascii.eqb_eq in H. subst c.
    now apply rstrip_keeps_head. }
  destruct S as (r & S). split; [| now rewrite S].
  apply in_map. apply filter_In. split; [exact I |].
  rewrite S. simpl. destruct line as [| c t]; [discriminate |].
  simpl in F |- *. destruct (Ascii.eqb c "#") eqn:C; [| reflexivity].
  apply Ascii.eqb_eq in C. subst c. discriminate.
Qed.

Lemma indented_comment_is_returned_witness :
  exists urls,
    read_urls_from_config
      (fun _ => Some ["http://a/"; "  # http://old/"]%string)
      "config.txt"%string = Returns urls /\
    In "# http://old/"%string urls.
Proof.
  destruct (@indented_comment_is_returned
              (fun _ => Some ["http://a/"; "  # http://old/"]%string)
              "config.txt"%string
              ["http://a/"; "  # http://old/"]%string
              "  # http://old/"%string eq_refl)
    as (urls & R & I & _).
  - right. now left.
  - reflexivity.
  - reflexivity.
  - exists urls. split; [exact R | exact I].
Defined.

(** *** [monitor] *)

Section Monitor.

Variables (requests_get : string -> Z -> outcome AppUptime.Response)
          (timeout : Z).

Lemma check_app_status_settles url :
  (forall e, requests_get url timeout = Raises e ->
     is_RequestException e = true) ->
  exists status code,
    AppUptime.check_app_status requests_get url timeout
    = Returns (status, code).
Proof.
  intros H. unfold AppUptime.check_app_status.
  destruct (requests_get url timeout) as [r | e].
  - destruct (_ && _)%bool; eauto.
  - rewrite (H e eq_refl). eauto.
Qed.

Lemma check_app_status_raises_iff url e :
  AppUptime.check_app_status requests_get url timeout = Raises e
  <-> requests_get url timeout = Raises e /\ is_RequestException e = false.
Proof.
  unfold AppUptime.check_app_status.
  destruct (requests_get url timeout) as [r | x].
  - destruct (_ && _)%bool; split; try discriminate; intros [[=] _].
  - destruct (is_RequestException x) eqn:X; split.
    + discriminate.
    + intros [[= ->] F]. congruence.
    + intros [= ->]. auto.
    + intros [[= ->] _]. reflexivity.
Qed.

Lemma monitor_body_spec results url lg :
  (forall e, requests_get url timeout = Raises e ->
     is_RequestException e = true) ->
  exists l,
    monitor_body results url timeout (Some lg) requests_get
    = (Returns (results ++ entry_of requests_get timeout url), l) /\
    (lg = setup_logger -> l = line_of requests_get timeout url).
Proof.
  intros H. destruct (@check_app_status_settles url H) as (st & code & E).
  unfold monitor_body, entry_of, line_of. rewrite E. simpl.
  destruct code as [c |]; simpl.
  - destruct (c =? 0)%Z; simpl;
      destruct (_ <=? _)%Z eqn:L; simpl; eexists; (split; [reflexivity |]);
      intros ->; simpl in L; try discriminate; reflexivity.
  - destruct (_ <=? _)%Z eqn:L; simpl; eexists; (split; [reflexivity |]);
      intros ->; simpl in L; try discriminate; reflexivity.
Qed.

Lemma monitor_from_spec urls lg : forall results,
  requests_settle requests_get timeout urls ->
  exists l,
    monitor_from results urls timeout (Some lg) requests_get
    = (Returns (results ++ flat_map (entry_of requests_get timeout) urls), l)
    /\ (lg = setup_logger ->
        l = flat_map (line_of requests_get timeout) urls).
Proof.
  induction urls as [| url rest IH]; intros results H.
  - exists []. simpl. now rewrite app_nil_r.
  - destruct (@monitor_body_spec results url lg) as (l1 & B & L1).
    { intros e. apply H. now left. }
    destruct (IH (results ++ entry_of requests_get timeout url)) as (l2 & R & L2).
    { intros u e I. apply H. now right. }
    exists (l1 ++ l2). cbn [monitor_from flat_map]. rewrite B. unfold wbind.
    rewrite R. split; [now rewrite <- app_assoc |].
    intros E. now rewrite (L1 E), (L2 E).
Qed.

Lemma in_entry_of url u status code :
  In (u, status, code) (entry_of requests_get timeout url) ->
  u = url /\
  AppUptime.check_app_status requests_get url timeout
  = Returns (status, code).
Proof.
  unfold entry_of.
  destruct (AppUptime.check_app_status requests_get url timeout)
    as [[st c] | e]; simpl; [| tauto].
  intros [[= <- <- <-] | []]. auto.
Qed.

Lemma urls_of_entries urls :
  requests_settle requests_get timeout urls ->
  map (fun e : entry => fst (fst e))
    (flat_map (entry_of requests_get timeout) urls) = urls.
Proof.
  induction urls as [| url rest IH]; intros H; [reflexivity |].
  cbn [flat_map]. rewrite map_app, IH by (intros u e I; apply H; now right).
  unfold entry_of.
  destruct (@check_app_status_settles url) as (st & code & ->);
    [intros e; apply H; now left | reflexivity].
Qed.

End Monitor.

(** X5.  When every request is answered or fails as a request,
    [monitor] returns one entry per URL, in the order of the URLs; the
    entry of a URL holds what [check_app_status] returns for it.  A URL
    whose request fails is therefore reported as DOWN without a code and
    the URLs after it are checked all the same. *)
Theorem monitor_reports_every_url
    (requests_get : string -> Z -> outcome AppUptime.Response)
    (timeout : Z) (urls : list string) (lg : Logger) :
  requests_settle requests_get timeout urls ->
  exists results,
    fst (monitor urls timeout (Some lg) requests_get) = Returns results /\
    map (fun e : entry => fst (fst e)) results = urls /\
    (forall url status code,
       In (url, status, code) results ->
       AppUptime.check_app_status requests_get url timeout
       = Returns (status, code)) /\
    (forall url e,
       In url urls -> requests_get url timeout = Raises e ->
       In (url, "DOWN"%string, None) results).
Proof.
  intros H. unfold monitor.
  destruct (@monitor_from_spec requests_get timeout urls lg [] H)
    as (l & -> & _).
  simpl. eexists. split; [reflexivity |].
  split; [now apply urls_of_entries |]. split.
  - intros url status code I. apply in_flat_map in I.
    destruct I as (u & _ & I). apply in_entry_of in I.
    destruct I as [-> E]. exact E.
  - intros url e I R. apply in_flat_map. exists url. split; [exact I |].
    unfold entry_of, AppUptime.check_app_status.
    rewrite R, (H url e I R). now left.
Qed.

Lemma monitor_reports_every_url_witness :
  exists results,
    fst (monitor ["http://a/"; "http://b/"]%string 10 (Some setup_logger)
           (fun url _ =>
              if String.eqb url "http://a/" then Raises RequestException
              else Returns (AppUptime.mkResponse 200)))
    = Returns results /\
    map (fun e : entry => fst (fst e)) results
    = ["http://a/"; "http://b/"]%string.
Proof.
  destruct (@monitor_reports_every_url
              (fun url _ =>
                 if String.eqb url "http://a/" then Raises RequestException
                 else Returns (AppUptime.mkResponse 200))
              10 ["http://a/"; "http://b/"]%string setup_logger)
    as (results & R & U & _).
  - intros url e [<- | [<- | []]]; simpl; [now intros [= <-] | discriminate].
  - exists results. split; [exact R | exact U].
Defined.

(** X6.  With the logger of [setup_logger], [monitor] logs exactly one
    line per URL, in the order of the URLs.  The line is a warning
    exactly when [if code:] fails, that is when no response came or the
    status code is 0; otherwise it is an info line with the code. *)
Theorem monitor_logs_one_line_per_url
    (requests_get : string -> Z -> outcome AppUptime.Response)
    (timeout : Z) (urls : list string) :
  requests_settle requests_get timeout urls ->
  snd (monitor urls timeout (Some setup_logger) requests_get)
  = flat_map (line_of requests_get timeout) urls /\
  List.length (snd (monitor urls timeout (Some setup_logger) requests_get))
  = List.length urls /\
  forall url, In url urls ->
    exists r,
      line_of requests_get timeout url = [r] /\
      (uptime_level r = WARNING <->
       ~ exists response,
           requests_get url timeout = Returns response /\
           AppUptime.status_code response <> 0%Z) /\
      (uptime_level r = INFO <->
       exists response,
         requests_get url timeout = Returns response /\
         AppUptime.status_code response <> 0%Z).
Proof.
  intros H. unfold monitor.
  destruct (@monitor_from_spec requests_get timeout urls setup_logger [] H)
    as (l & -> & L).
  simpl. rewrite (L eq_refl).
  assert (P : forall url, In url urls ->
            exists r,
              line_of requests_get timeout url = [r] /\
              (uptime_level r = WARNING <->
               ~ exists response,
                   requests_get url timeout = Returns response /\
                   AppUptime.status_code response <> 0%Z) /\
              (uptime_level r = INFO <->
               exists response,
                 requests_get url timeout = Returns response /\
                 AppUptime.status_code response <> 0%Z)).
  { intros url I. unfold line_of, AppUptime.check_app_status.
    destruct (requests_get url timeout) as [resp | e] eqn:R.
    - destruct ((_ <=? _) && (_ <? _))%Z;
        destruct (Z.eqb_spec (AppUptime.status_code resp) 0) as [Z0 | Z0];
        eexists; (split; [reflexivity |]); simpl; split; split;
        try discriminate; try reflexivity.
      all: try (intros _ (resp' & [= <-] & N); congruence).
      all: try (intros (resp' & [= <-] & N); congruence).
      all: try (intros N; exfalso; apply N; eauto).
      all: try (intros _; eauto).
    - rewrite (H url e I R). eexists. split; [reflexivity |]. simpl.
      split; split; try discriminate; try reflexivity.
      + intros _ (resp & [=] & _).
      + intros (resp & [=] & _). }
  split; [reflexivity |]. split; [| exact P].
  clear L H. induction urls as [| url rest IH]; [reflexivity |].
  cbn [flat_map]. rewrite length_app, IH by (intros u I; apply P; now right).
  destruct (P url (or_introl eq_refl)) as (r & -> & _). reflexivity.
Qed.

Lemma monitor_logs_one_line_per_url_witness :
  snd (monitor ["http://a/"; "http://b/"]%string 10 (Some setup_logger)
         (fun url _ =>
            if String.eqb url "http://a/" then Raises RequestException
            else Returns (AppUptime.mkResponse 503)))
  = [mkUptimeRecord WARNING (MsgAppNoResponse "http://a/" "DOWN");
     mkUptimeRecord INFO (MsgAppStatus "http://b/" "DOWN" 503)].
Proof.
  refine (proj1 (@monitor_logs_one_line_per_url
                   (fun url _ =>
                      if String.eqb url "http://a/"
                      then Raises RequestException
                      else Returns (AppUptime.mkResponse 503))
                   10 ["http://a/"; "http://b/"]%string _)).
  intros url e [<- | [<- | []]]; simpl; [now intros [= <-] | discriminate].
Defined.

Lemma monitor_from_app requests_get timeout lg l1 rest : forall results,
  requests_settle requests_get timeout l1 ->
  exists l,
    monitor_from results (l1 ++ rest) timeout (Some lg) requests_get
    = (let (r, l') :=
         monitor_from
           (results ++ flat_map (entry_of requests_get timeout) l1)
           rest timeout (Some lg) requests_get in
       (r, l ++ l')).
Proof.
  induction l1 as [| url l1 IH]; intros results H.
  - exists []. simpl. rewrite app_nil_r. now destruct (monitor_from _ _ _ _ _).
  - destruct (@monitor_body_spec requests_get timeout results url lg)
      as (la & B & _).
    { intros e. apply H. now left. }
    destruct (IH (results ++ entry_of requests_get timeout url))
      as (lb & R).
    { intros u e I. apply H. now right. }
    exists (la ++ lb). cbn [app monitor_from flat_map]. rewrite B.
    unfold wbind. rewrite R, <- app_assoc. clear R.
    destruct (monitor_from _ rest _ _ _) as [r l']. f_equal. apply app_assoc.
Qed.

(** X7.  [monitor] contains request failures only.  It raises exactly
    when some request raises an exception that is no [RequestException]:
    at the first such URL, with that exception, and the entries of the
    URLs before it are not returned. *)
Theorem monitor_raises_at_first_other_exception
    (requests_get : string -> Z -> outcome AppUptime.Response)
    (timeout : Z) (urls : list string) (lg : Logger) (e : exn) :
  fst (monitor urls timeout (Some lg) requests_get) = Raises e
  <-> exists before url after,
        urls = before ++ url :: after /\
        requests_settle requests_get timeout before /\
        requests_get url timeout = Raises e /\
        is_RequestException e = false.
Proof.
  unfold monitor. generalize (@nil entry) as results. split.
  - revert results. induction urls as [| url rest IH]; intros results;
      [discriminate |].
    cbn [monitor_from].
    destruct (AppUptime.check_app_status requests_get url timeout)
      as [[st code] | x] eqn:C.
    + assert (S : forall x, requests_get url timeout = Raises x ->
                    is_RequestException x = true).
      { intros x R. destruct (is_RequestException x) eqn:X; [reflexivity |].
        rewrite (proj2 (check_app_status_raises_iff requests_get timeout
                          url x) (conj R X)) in C. discriminate. }
      destruct (@monitor_body_spec requests_get timeout results url lg S)
        as (l & -> & _).
      unfold wbind. destruct (monitor_from _ rest _ _ _) as [r l'] eqn:M.
      simpl. intros ->.
      destruct (IH (results ++ entry_of requests_get timeout url))
        as (before & u & after & -> & B & R & X).
      { now rewrite M. }
      exists (url :: before), u, after. split; [reflexivity |].
      split; [| auto]. intros v y [<- | I]; [apply S | now apply B].
    + unfold monitor_body. rewrite C. simpl. intros [= ->].
      apply check_app_status_raises_iff in C. destruct C as [R X].
      exists [], url, rest. split; [reflexivity |]. split; [| auto].
      intros v y [].
  - intros (before & url & after & -> & B & R & X).
    destruct (@monitor_from_app requests_get timeout lg before
                (url :: after) results B) as (l & ->).
    cbn [monitor_from]. unfold monitor_body.
    rewrite (proj2 (check_app_status_raises_iff requests_get timeout url e)
               (conj R X)).
    reflexivity.
Qed.

Lemma monitor_raises_at_first_other_exception_witness :
  fst (monitor ["http://a/"; "http://b/"]%string 0 (Some setup_logger)
         Scenarios.strict_timeout)
  = Raises (OtherException "ValueError").
Proof.
  apply (proj2 (monitor_raises_at_first_other_exception
                  Scenarios.strict_timeout 0
                  ["http://a/"; "http://b/"]%string setup_logger
                  (OtherException "ValueError"))).
  exists [], "http://a/"%string, ["http://b/"%string].
  split; [reflexivity |]. split; [intros u x [] |]. split; reflexivity.
Defined.

(** X8.  The default [logger=None] of [monitor] is usable for an empty
    list only: with at least one URL, as soon as the first status is
    known the call of [logger.info] or [logger.warning] raises
    [AttributeError], nothing is logged and no entry is returned. *)
Theorem monitor_needs_a_logger
    (requests_get : string -> Z -> outcome AppUptime.Response)
    (timeout : Z) (url : string) (rest : list string) :
  (forall e, requests_get url timeout = Raises e ->
     is_RequestException e = true) ->
  monitor (url :: rest) timeout None requests_get
  = (Raises (OtherException "AttributeError"), []) /\
  monitor [] timeout None requests_get = (Returns [], []).
Proof.
  intros H. split; [| reflexivity].
  destruct (@check_app_status_settles requests_get timeout url H)
    as (st & code & E).
  unfold monitor. cbn [monitor_from]. unfold monitor_body. rewrite E.
  simpl. destruct code as [c |]; [| reflexivity].
  unfold code_truthy. now destruct (c =? 0)%Z.
Qed.

Lemma monitor_needs_a_logger_witness :
  monitor ["http://a/"; "http://b/"]%string 10 None Scenarios.strict_timeout
  = (Raises (OtherException "AttributeError"), []).
Proof.
  refine (proj1 (@monitor_needs_a_logger Scenarios.strict_timeout 10
                   "http://a/"%string ["http://b/"%string] _)).
  intros e. discriminate.
Defined.

(** X9.  [main] of the uptime check.  Without the configuration file it
    prints the error and returns: no request is made and nothing is
    logged.  With the file, when every request is answered or fails as a
    request, it returns after logging the start line, one line per URL
    of the file in their order, and the end line. *)
Theorem uptime_main_runs
    (fs : FileSystem)
    (requests_get : string -> Z -> outcome AppUptime.Response)
    (config : string) (timeout : Z) :
  (fs config = None ->
   Uptime.main fs requests_get config timeout
   = mkRun [not_found_text config] [] (Returns tt)) /\
  (forall urls,
     read_urls_from_config fs config = Returns urls ->
     requests_settle requests_get timeout urls ->
     Uptime.main fs requests_get config timeout
     = mkRun []
         (mkUptimeRecord INFO MsgStartingCheck
            :: flat_map (line_of requests_get timeout) urls
            ++ [mkUptimeRecord INFO MsgCheckCompleted])
         (Returns tt)).
Proof.
  unfold Uptime.main. split.
  - intros E. unfold read_urls_from_config. now rewrite E.
  - intros urls -> H.
    destruct (@monitor_from_spec requests_get timeout urls setup_logger [] H)
      as (l & M & L).
    unfold monitor. rewrite M, (L eq_refl). reflexivity.
Qed.

Lemma uptime_main_runs_witness :
  Uptime.main (fun _ => Some ["# prod"; "http://a/ "]%string)
    Scenarios.strict_timeout "config.txt" 10
  = mkRun []
      [mkUptimeRecord INFO MsgStartingCheck;
       mkUptimeRecord INFO (MsgAppStatus "http://a/" "UP" 200);
       mkUptimeRecord INFO MsgCheckCompleted]
      (Returns tt).
Proof.
  rewrite (proj2 (uptime_main_runs
                    (fun _ => Some ["# prod"; "http://a/ "]%string)
                    Scenarios.strict_timeout "config.txt" 10)
             ["http://a/"%string] eq_refl).
  - reflexivity.
  - intros url e [<- | []]. discriminate.
Defined.

(** *** The logger object of the health monitor *)

Lemma setup_logging_keeps_handlers lg log_file lvl max_bytes backup_count :
  SysMonSetup.handlers lg <> [] ->
  SysMonSetup.setup_logging lg log_file lvl max_bytes backup_count
  = SysMonSetup.mkLoggerObject lvl (SysMonSetup.handlers lg).
Proof.
  unfold SysMonSetup.setup_logging. simpl.
  destruct (SysMonSetup.handlers lg); [congruence | reflexivity].
Qed.

Lemma last_cons_default A (x : A) l d d' : last (x :: l) d = last (x :: l) d'.
Proof.
  revert x. induction l as [| y l IH]; intros x; [reflexivity |].
  change (last (x :: y :: l) d) with (last (y :: l) d).
  change (last (x :: y :: l) d') with (last (y :: l) d').
  apply IH.
Qed.

Lemma setup_logging_calls_keep_handlers calls : forall lg,
  SysMonSetup.handlers lg <> [] ->
  SysMonSetup.setup_logging_calls lg calls
  = SysMonSetup.mkLoggerObject
      (last (map SysMonSetup.call_level calls) (SysMonSetup.level lg))
      (SysMonSetup.handlers lg).
Proof.
  induction calls as [| c rest IH]; intros lg H.
  - now destruct lg.
  - unfold SysMonSetup.setup_logging_calls in *. cbn [fold_left].
    rewrite setup_logging_keeps_handlers by assumption.
    rewrite IH; [| exact H]. cbn [SysMonSetup.level SysMonSetup.handlers].
    f_equal. destruct rest as [| d rest']; [reflexivity |].
    cbn [map].
    change (last (?a :: ?b :: ?l) (SysMonSetup.level lg))
      with (last (b :: l) (SysMonSetup.level lg)).
    apply last_cons_default.
Qed.

Lemma last_call_level (later : list SysMonSetup.Call) : forall first,
  last (map SysMonSetup.call_level later) (SysMonSetup.call_level first)
  = SysMonSetup.call_level (last later first).
Proof.
  induction later as [| c rest IH]; intros first; [reflexivity |].
  destruct rest as [| d rest']; [reflexivity |].
  change (last (map SysMonSetup.call_level (c :: d :: rest')) ?x)
    with (last (map SysMonSetup.call_level (d :: rest')) x).
  change (last (c :: d :: rest') first) with (last (d :: rest') first).
  apply IH.
Qed.

(** X10.  However often [setup_logging] is called, the logger keeps the
    two handlers of the first call, the rotating file of that call's
    [log_file] and the console: a later call adds no handler and its
    [log_file], [max_bytes] and [backup_count] are ignored; only its
    level takes effect. *)
Theorem handlers_are_installed_once
    (first : SysMonSetup.Call) (later : list SysMonSetup.Call) :
  SysMonSetup.setup_logging_calls SysMonSetup.fresh (first :: later)
  = SysMonSetup.mkLoggerObject
      (SysMonSetup.call_level (last later first))
      [SysMonSetup.RotatingFileHandler (SysMonSetup.call_log_file first)
         (SysMonSetup.call_max_bytes first)
         (SysMonSetup.call_backup_count first);
       SysMonSetup.StreamHandler].
Proof.
  unfold SysMonSetup.setup_logging_calls. cbn [fold_left].
  change (fold_left _ later ?lg)
    with (SysMonSetup.setup_logging_calls lg later).
  rewrite setup_logging_calls_keep_handlers by discriminate.
  simpl. now rewrite last_call_level.
Qed.

(** *** The registry, again *)

Lemma keys_setitem procs pid name :
  map fst (setitem procs pid name)
  = if existsb (Z.eqb pid) (map fst procs) then map fst procs
    else map fst procs ++ [pid].
Proof.
  induction procs as [| [p n] rest IH]; [reflexivity |]. simpl.
  rewrite (Z.eqb_sym pid p).
  destruct (p =? pid)%Z eqn:E; simpl.
  - apply Z.eqb_eq in E. now subst.
  - rewrite IH. now destruct (existsb _ _).
Qed.

Lemma nodup_setitem procs pid name :
  NoDup (map fst procs) -> NoDup (map fst (setitem procs pid name)).
Proof.
  intros N. rewrite keys_setitem.
  destruct (existsb (Z.eqb pid) (map fst procs)) eqn:E; [exact N |].
  apply NoDup_app; [exact N | repeat constructor; intros [] |].
  intros x I [P | []]. subst x.
  assert (existsb (Z.eqb pid) (map fst procs) = true); [| congruence].
  apply existsb_exists. exists pid. split; [exact I | apply Z.eqb_refl].
Qed.

Lemma in_keys_setitem procs pid name p :
  In p (map fst procs) \/ p = pid -> In p (map fst (setitem procs pid name)).
Proof.
  rewrite keys_setitem.
  destruct (existsb (Z.eqb pid) (map fst procs)) eqn:E.
  - intros [I | ->]; [exact I |].
    apply existsb_exists in E. destruct E as (x & I & E).
    apply Z.eqb_eq in E. now subst.
  - intros [I | ->]; apply in_or_app; [now left | right; now left].
Qed.

Lemma first_pass_keys iter : forall procs procs',
  result (first_pass procs iter) = Returns procs' ->
  (NoDup (map fst procs) -> NoDup (map fst procs')) /\
  (forall p, In p (map fst procs) -> In p (map fst procs')) /\
  (forall proc v, In proc iter -> cpu_percent_first proc = Returns v ->
     In (info_pid proc) (map fst procs')).
Proof.
  induction iter as [| proc rest IH]; intros procs procs'.
  - simpl. intros [= <-]. repeat split; auto. intros proc v [].
  - cbn [first_pass]. rewrite result_bind, first_pass_body_spec.
    destruct (cpu_percent_first proc) as [v | e] eqn:E; simpl.
    + intros H. destruct (IH _ _ H) as (N & K & C). repeat split.
      * intros D. now apply N, nodup_setitem.
      * intros p I. apply K, in_keys_setitem. now left.
      * intros q u [<- | I] Q; [| now apply (C q u)].
        apply K, in_keys_setitem. now right.
    + destruct (is_process_gone e); simpl; [| discriminate].
      intros H. destruct (IH _ _ H) as (N & K & C). repeat split; auto.
      intros q u [<- | I] Q; [congruence | now apply (C q u)].
Qed.

(** X11.  The registry the first pass returns has one entry per pid, and
    it misses no process whose counter was initialised: every process of
    the table whose first [cpu_percent] returned is in it. *)
Theorem registry_is_keyed_by_pid (w : World) (procs : list (Z * string)) :
  result (first_pass [] (psutil_process_iter w)) = Returns procs ->
  NoDup (map fst procs) /\
  forall proc v,
    In proc (psutil_process_iter w) ->
    cpu_percent_first proc = Returns v ->
    In (info_pid proc) (map fst procs).
Proof.
  intros H. destruct (first_pass_keys _ _ H) as (N & _ & C).
  split; [apply N; constructor | exact C].
Qed.

Lemma registry_is_keyed_by_pid_witness :
  NoDup (map fst [(1%Z, "init"%string); (2%Z, "sshd"%string);
                  (3%Z, ""%string)]).
Proof.
  exact (proj1 (@registry_is_keyed_by_pid Scenarios.quiet
                  [(1%Z, "init"%string); (2%Z, "sshd"%string);
                   (3%Z, ""%string)] eq_refl)).
Defined.

(** *** What escapes the checks *)

(** X12.  The second pass lets no ordinary exception out: if it raises,
    the exception is not an [Exception] (it is Ctrl-C) and was raised by
    a query of a pid of the registry. *)
Theorem second_pass_raises_only_ctrl_c
    (T : Q) (logger : Logger) (w : World) (items : list (Z * string))
    (high : list dict) (e : exn) :
  result (second_pass high items T logger w) = Raises e ->
  is_Exception e = false /\
  exists pid name, In (pid, name) items /\ query w pid = Raises e.
Proof.
  revert high. induction items as [| [pid name] rest IH]; intros high;
    [discriminate |].
  cbn [second_pass]. rewrite result_bind, second_pass_body_spec.
  assert (Hrest : forall h,
            result (second_pass h rest T logger w) = Raises e ->
            is_Exception e = false /\
            exists p n, In (p, n) ((pid, name) :: rest) /\
                        query w p = Raises e).
  { intros h R. destruct (IH _ R) as (X & p & n & I & Q').
    split; [exact X |]. exists p, n. split; [now right | exact Q']. }
  destruct (query w pid) as [m | x] eqn:E; simpl result; [apply Hrest |].
  destruct (is_process_gone x); simpl result; [apply Hrest |].
  destruct (is_Exception x) eqn:X; simpl result; [apply Hrest |].
  intros [= ->]. split; [exact X |]. exists pid, name. split; [now left | exact E].
Qed.

Lemma second_pass_raises_only_ctrl_c_witness :
  is_Exception KeyboardInterrupt = false /\
  exists pid name,
    In (pid, name) [(1%Z, "init"%string); (2%Z, "sshd"%string)] /\
    query MoreScenarios.ctrl_c_in_scan pid = Raises KeyboardInterrupt.
Proof.
  exact (@second_pass_raises_only_ctrl_c 20 setup_logging
           MoreScenarios.ctrl_c_in_scan
           [(1%Z, "init"%string); (2%Z, "sshd"%string)] [] KeyboardInterrupt
           eq_refl).
Defined.

(** X13.  With the logger of [setup_logging] the second pass logs
    nothing, whatever the queries answer: the line it writes for an
    unexpected error of a query is a DEBUG line, below the level of the
    logger, so such a process is dropped without any trace. *)
Theorem second_pass_is_silent
    (T : Q) (w : World) (items : list (Z * string)) (high : list dict) :
  logged (second_pass high items T setup_logging w) = [].
Proof.
  revert high. induction items as [| [pid name] rest IH]; intros high;
    [reflexivity |].
  cbn [second_pass]. rewrite logged_bind, second_pass_body_spec.
  destruct (query w pid) as [m | x]; simpl; [apply IH |].
  destruct (is_process_gone x); simpl; [apply IH |].
  destruct (is_Exception x); simpl; [apply IH | reflexivity].
Qed.



(** X15.  The line of the ranking cannot be written either: the f-string
    of line 163 reads [p['mem_percent']], the entries store the memory
    share under ['mem'], so for any ranking whose first entry is an entry
    of the high-usage list [report_sorted] raises [KeyError] before it
    logs a line. *)
Theorem ranking_line_raises_key_error
    (ranking : list dict) (logger : Logger) :
  ranking <> [] ->
  (forall s, In s ranking ->
     exists pid name cpu mem, s = snapshot pid name cpu mem) ->
  report_sorted ranking logger = (Raises (KeyError "mem_percent"), []).
Proof.
  intros N S. destruct ranking as [| s rest]; [congruence |].
  destruct (S s (or_introl eq_refl)) as (pid & name & cpu & mem & ->).
  reflexivity.
Qed.

Lemma ranking_line_raises_key_error_witness :
  report_sorted [snapshot 42 "stress" 50 1; snapshot 7 "a" 30 2] setup_logging
  = (Raises (KeyError "mem_percent"), []).
Proof.
  apply ranking_line_raises_key_error; [discriminate |].
  intros s [<- | [<- | []]]; repeat eexists.
Defined.

Lemma disk_body_cases alerts path T logger w :
  disk_body alerts path T logger w
  = match psutil_disk_usage_percent w path with
    | Returns _ =>
        (Returns (alerts ++ disk_alert T w path), disk_log T logger w path)
    | Raises x =>
        if is_Exception x then (Returns alerts, disk_log T logger w path)
        else (Raises x, [])
    end.
Proof.
  destruct (psutil_disk_usage_percent w path) as [pct | x] eqn:E.
  - rewrite disk_body_spec; [reflexivity | intros e; congruence].
  - destruct (is_Exception x) eqn:X.
    + rewrite disk_body_spec.
      * unfold disk_alert. rewrite E. now rewrite app_nil_r.
      * intros e. congruence.
    + unfold disk_body, call. rewrite E. simpl. now rewrite X.
Qed.

Lemma check_disk_usage_from_app T logger w before rest : forall alerts,
  (forall p x, In p before -> psutil_disk_usage_percent w p = Raises x ->
     is_Exception x = true) ->
  check_disk_usage_from alerts (before ++ rest) T logger w
  = bind (check_disk_usage_from alerts before T logger w)
      (fun alerts' => check_disk_usage_from alerts' rest T logger w).
Proof.
  induction before as [| path before IH]; intros alerts H.
  - simpl. now destruct (check_disk_usage_from alerts rest T logger w).
  - cbn [app check_disk_usage_from]. rewrite bind_assoc.
    destruct (disk_body alerts path T logger w) as [[a | x] l];
      [| reflexivity].
    unfold bind at 1 3. rewrite IH by (intros p x I; apply H; now right).
    reflexivity.
Qed.

(** X16.  [check_disk_usage] raises exactly when a read raises what is
    not an [Exception] (Ctrl-C): at the first such path.  Then the alerts
    of the paths before it are not returned, the log holds the lines of
    those paths only, and no later path is read. *)
Theorem disk_check_raises_only_ctrl_c
    (paths : list string) (T : Q) (logger : Logger) (w : World) (e : exn) :
  (result (check_disk_usage paths T logger w) = Raises e ->
   exists before path after,
     paths = before ++ path :: after /\
     (forall p x, In p before ->
        psutil_disk_usage_percent w p = Raises x -> is_Exception x = true) /\
     psutil_disk_usage_percent w path = Raises e /\
     is_Exception e = false) /\
  (forall before path after,
     paths = before ++ path :: after ->
     (forall p x, In p before ->
        psutil_disk_usage_percent w p = Raises x -> is_Exception x = true) ->
     psutil_disk_usage_percent w path = Raises e ->
     is_Exception e = false ->
     check_disk_usage paths T logger w
     = (Raises e, flat_map (disk_log T logger w) before)).
Proof.
  split.
  - unfold check_disk_usage. generalize (@nil (string * Q)) as alerts.
    induction paths as [| path rest IH]; intros alerts; [discriminate |].
    cbn [check_disk_usage_from]. rewrite result_bind, disk_body_cases.
    assert (Hrest : forall a,
              result (check_disk_usage_from a rest T logger w) = Raises e ->
              (forall x, psutil_disk_usage_percent w path = Raises x ->
                 is_Exception x = true) ->
              exists before p after,
                path :: rest = before ++ p :: after /\
                (forall q x, In q before ->
                   psutil_disk_usage_percent w q = Raises x ->
                   is_Exception x = true) /\
                psutil_disk_usage_percent w p = Raises e /\
                is_Exception e = false).
    { intros a R S. destruct (IH _ R) as (b & p & af & -> & B & R' & X).
      exists (path :: b), p, af. split; [reflexivity |]. split; [| auto].
      intros q x [<- | I]; [apply S | now apply B]. }
    destruct (psutil_disk_usage_percent w path) as [pct | x] eqn:E.
    + simpl. intros R. apply (Hrest _ R). discriminate.
    + destruct (is_Exception x) eqn:X; simpl.
      * intros R. apply (Hrest _ R). now intros y [= <-].
      * intros [= ->]. exists [], path, rest. split; [reflexivity |].
        split; [intros q y [] | auto].
  - intros before path after -> B R X. unfold check_disk_usage.
    rewrite check_disk_usage_from_app by exact B.
    rewrite check_disk_usage_from_spec by exact B.
    cbn [check_disk_usage_from bind]. rewrite disk_body_cases, R, X.
    simpl. now rewrite app_nil_r.
Qed.

Lemma disk_check_raises_only_ctrl_c_witness :
  check_disk_usage ["/"; "/var"; "/home"]%string 90 setup_logging
    MoreScenarios.ctrl_c_on_disk
  = (Raises KeyboardInterrupt,
     [mkRecord WARNING (MsgHighDisk "/" 95 90) false]).
Proof.
  refine (proj2 (@disk_check_raises_only_ctrl_c
                   ["/"; "/var"; "/home"]%string 90 setup_logging
                   MoreScenarios.ctrl_c_on_disk KeyboardInterrupt)
            ["/"%string] "/var"%string ["/home"%string] eq_refl _ eq_refl
            eq_refl).
  intros p x [<- | []]. discriminate.
Defined.










(** X18.  A cycle that runs to its end logs, with the logger of
    [setup_logging], the header line first and, as its last two lines,
    the summary and the end line; the summary is the warning "One or more
    alerts raised this cycle." exactly when [cycle_alerts] is true and
    "All checks OK this cycle." otherwise. *)
Theorem completed_cycle_ends_with_its_summary
    (args : Args) (w : World) (cycle_alerts : bool) :
  result (cycle args setup_logging w) = Returns cycle_alerts ->
  exists l,
    logged (cycle args setup_logging w)
    = mkRecord INFO MsgNewCycle false
        :: l ++ [summary_line cycle_alerts;
                 mkRecord INFO MsgCycleCompleted false].
Proof.
  unfold cycle.
  destruct (check_cpu_usage _ _ _) as [[c | x] lc]; [| discriminate].
  destruct (check_memory_usage _ _ _) as [[m | x] lm]; [| discriminate].
  destruct (check_disk_usage _ _ _ _) as [[d | x] ld]; [| discriminate].
  destruct (check_running_processes _ _ _ _) as [[r | x] lr];
    [| discriminate].
  unfold call, bind, info, warning, log_at, ret. cbv beta iota zeta.
  set (b := snd c || snd m || truthy d || truthy (snd (fst r))
            || truthy (snd r)).
  destruct (time_sleep_interval w) as [[] | x]; destruct b; simpl;
    try discriminate; intros [= <-];
    exists (lc ++ lm ++ ld ++ lr);
    rewrite <- ?app_assoc; reflexivity.
Qed.

Lemma completed_cycle_ends_with_its_summary_witness :
  exists l,
    logged (cycle Scenarios.default_args setup_logging Scenarios.scenario_a)
    = mkRecord INFO MsgNewCycle false
        :: l ++ [mkRecord WARNING MsgAlertsRaised false;
                 mkRecord INFO MsgCycleCompleted false].
Proof.
  exact (@completed_cycle_ends_with_its_summary Scenarios.default_args
           Scenarios.scenario_a true eq_refl).
Defined.

(** X19.  Whenever [check_running_processes] returns, the high-usage list
    it returns is empty, so [main] never sees a non-empty one; the count
    is the number of pids or [None], and the alert list holds the
    process-count alert exactly when the count is above its threshold. *)
Theorem returned_high_usage_list_is_empty
    (T : Q) (ct : Z) (logger : Logger) (w : World)
    (process_count : option Z) (high : list dict)
    (alerts : list (string * Z)) :
  result (check_running_processes T ct logger w)
  = Returns (process_count, high, alerts) ->
  high = [] /\
  ((exists pids,
      psutil_pids w = Returns pids /\
      process_count = Some (Z.of_nat (List.length pids)) /\
      ((ct < Z.of_nat (List.length pids))%Z ->
       alerts = [("Process Count"%string, Z.of_nat (List.length pids))]) /\
      ((Z.of_nat (List.length pids) <= ct)%Z -> alerts = [])) \/
   (exists x,
      psutil_pids w = Raises x /\ is_Exception x = true /\
      process_count = None /\ alerts = [])).
Proof.
  unfold check_running_processes. rewrite result_bind.
  destruct (result (count_processes logger w)) as [c | x] eqn:C;
    [| discriminate].
  rewrite result_bind.
  destruct (result (process_count_alerts c ct logger)) as [a | x] eqn:A;
    [| discriminate].
  rewrite result_bind.
  destruct (result (measure_high_cpu T logger w)) as [h | x] eqn:M;
    [| discriminate].
  rewrite result_bind.
  destruct (result (report_high_cpu h logger)) as [[] | x] eqn:R;
    [| discriminate].
  simpl. intros [= <- <- <-]. split.
  - destruct h as [| s rest]; [reflexivity |].
    rewrite (@report_high_cpu_raises (s :: rest) logger) in R;
      [discriminate | discriminate |].
    intros y I.
    exact (@measure_high_cpu_snapshots T logger w (s :: rest) y M I).
  - revert C A. unfold count_processes, call.
    destruct (psutil_pids w) as [pids | x]; simpl.
    + intros [= <-]. simpl. rewrite Z.gtb_ltb.
      destruct (Z.ltb_spec ct (Z.of_nat (List.length pids))) as [L | L];
        simpl; intros [= <-]; left; exists pids;
        repeat split; auto; intros; lia.
    + destruct (is_Exception x) eqn:X; simpl; [| discriminate].
      intros [= <-]. simpl. intros [= <-]. right. exists x. auto.
Qed.

Lemma returned_high_usage_list_is_empty_witness :
  (@nil dict) = [] /\
  ((exists pids,
      psutil_pids Scenarios.scenario_a = Returns pids /\
      Some 600%Z = Some (Z.of_nat (List.length pids)) /\
      ((500 < Z.of_nat (List.length pids))%Z ->
       [("Process Count"%string, 600%Z)]
       = [("Process Count"%string, Z.of_nat (List.length pids))]) /\
      ((Z.of_nat (List.length pids) <= 500)%Z ->
       [("Process Count"%string, 600%Z)] = [])) \/
   (exists x,
      psutil_pids Scenarios.scenario_a = Raises x /\
      is_Exception x = true /\
      Some 600%Z = None /\ [("Process Count"%string, 600%Z)] = [])).
Proof.
  exact (@returned_high_usage_list_is_empty 20 500 setup_logging
           Scenarios.scenario_a (Some 600%Z) []
           [("Process Count"%string, 600%Z)] eq_refl).
Defined.
